(** * The update-notification flow of the Electron application

    A shallow embedding of the three TypeScript layers of the repository
    (main process, preload bridge, renderer):

    - [Preload]: the bridge of [src/preload/index.ts] ([api.updates.on],
      [once], [removeAllListeners]) over a model of [ipcRenderer];
    - [Main]: the privileged side of [src/main/index.ts], in its two
      versions (with and without the dev-mode simulation), as state-passing
      code over the main window, the updater library and the timers;
    - [Renderer]: the render function of the [Versions] component;
    - [Loop]: runs of the main process in which requests, updater events
      and timers interleave;
    - [Component]: the effects of the [Versions] component (its listeners,
      mount and cleanup, [startCheck], [fetchVersion]).

    JavaScript objects that cross the boundary are values of [Js.value];
    the updater library, the random source and the event loop are external
    and enter as explicit arguments or as fields of the state. *)

From stdpp Require Import gmap strings list pretty sorting.

#[local] Open Scope string_scope.
#[local] Open Scope list_scope.
#[local] Set Warnings "-register-all".

(** ** JavaScript values *)

Module Js.

(** The payloads that travel over IPC: plain data. *)
Inductive value : Type :=
| VUndefined
| VNull
| VBool (b : bool)
| VNum (n : Z)
| VStr (s : string)
| VObj (fields : list (string * value)).

(** How a call ends: with a value, or by throwing (for a promise: resolved
    or rejected).  What is thrown is any value: an [Error] object as a
    rule, but also [null], [undefined], a string, an object without a
    message. *)
Inductive completion (A : Type) : Type :=
| Normal (a : A)
| Throw (thrown : value).
Arguments Normal {A} a.
Arguments Throw {A} thrown.

(** [v == null]: [null] or [undefined]. *)
Definition nullish (v : value) : bool :=
  match v with
  | VUndefined | VNull => true
  | _ => false
  end.

(** [o.key] on an object; [undefined] for a key it does not have. *)
Fixpoint field (key : string) (fields : list (string * value)) : value :=
  match fields with
  | [] => VUndefined
  | (k, v) :: rest => if decide (k = key) then v else field key rest
  end.

(** [v.message] for a value that is neither [null] nor [undefined]: the
    field of an object, and [undefined] on a number, a string or a boolean,
    which have no such property. *)
Definition message_of (v : value) : value :=
  match v with
  | VObj fields => field "message" fields
  | _ => VUndefined
  end.

(** The size of a value, to tell a value from its parts. *)
Fixpoint size (v : value) : nat :=
  match v with
  | VObj fields =>
      S (foldr (fun kv n => match kv with (_, x) => size x end + n) 0 fields)
  | _ => 1
  end.

Definition fields_size (fields : list (string * value)) : nat :=
  foldr (fun kv n => match kv with (_, x) => size x end + n) 0 fields.

(** [new Error(msg)], as far as the code looks at it. *)
Definition new_Error (msg : string) : value := VObj [("message", VStr msg)].

(** The [TypeError] of reading [message] on [null] or [undefined]. *)
Definition TypeError (v : value) : value :=
  VObj [("name", VStr "TypeError");
        ("message",
         VStr ("Cannot read properties of "
               +:+ match v with
                   | VNull => "null"
                   | _ => "undefined"
                   end
               +:+ " (reading 'message')"))].

(** [(error as Error).message]: the cast does nothing at run time; the read
    throws on [null] and [undefined]. *)
Definition read_message (v : value) : completion value :=
  if nullish v then Throw (TypeError v) else Normal (message_of v).

(** The call failed with [null] or [undefined]. *)
Definition rejects_nullish {A} (c : completion A) : bool :=
  match c with
  | Normal _ => false
  | Throw thrown => nullish thrown
  end.

(** The object literals the handlers return. *)
Definition error_object (msg : string) : value := VObj [("error", VStr msg)].
Definition error_reply (m : value) : value := VObj [("error", m)].
Definition ok_object : value := VObj [("ok", VBool true)].
Definition simulated_object : value := VObj [("simulated", VBool true)].

(** [a.includes(x)] on an array of strings. *)
Definition includes (a : list string) (x : string) : bool :=
  bool_decide (x ∈ a).

End Js.

Import Js.

(** ** The bridge: [src/preload/index.ts] *)

Module Preload.

(** A renderer callback, known by its identity. *)
Definition listener : Type := nat.

(** What [ipcRenderer] stores per registration: the function to call and
    whether it was registered with [once].  The bridge registers the
    wrapper [(_event, data) => listener(data)], which calls [target] with
    the data. *)
Record registration : Type := { target : listener; once_only : bool }.

(** [ipcRenderer] is an event emitter: per channel, the registrations in
    the order they were made. *)
Abbreviation registry := (gmap string (list registration)).

Definition ipcRenderer_on (channel : string) (l : listener) (r : registry)
  : registry :=
  <[channel := default [] (r !! channel)
               ++ [{| target := l; once_only := false |}]]> r.

Definition ipcRenderer_once (channel : string) (l : listener) (r : registry)
  : registry :=
  <[channel := default [] (r !! channel)
               ++ [{| target := l; once_only := true |}]]> r.

Definition ipcRenderer_removeAllListeners (channel : string) (r : registry)
  : registry :=
  delete channel r.

(** One message arriving on [channel]: every registration of the channel is
    called with the data, in order, and the [once] ones are dropped. *)
Definition emit (channel : string) (data : value) (r : registry)
  : list (listener * value) * registry :=
  match r !! channel with
  | None => ([], r)
  | Some regs =>
      (map (fun g => (target g, data)) regs,
       match filter (fun g => once_only g = false) regs with
       | [] => delete channel r
       | keep => <[channel := keep]> r
       end)
  end.

(** A sequence of messages; the result lists every listener call made. *)
Fixpoint deliver (traffic : list (string * value)) (r : registry)
  : list (listener * value) :=
  match traffic with
  | [] => []
  | (channel, data) :: rest =>
      let '(calls, r') := emit channel data r in
      calls ++ deliver rest r'
  end.

Definition validChannels : list string :=
  [ "checking-for-update";
    "update-available";
    "update-not-available";
    "download-progress";
    "update-downloaded";
    "update-error" ].

(** [api.updates.on] *)
Definition updates_on (channel : string) (l : listener) (r : registry)
  : registry :=
  if includes validChannels channel then ipcRenderer_on channel l r else r.

(** [api.updates.once] *)
Definition updates_once (channel : string) (l : listener) (r : registry)
  : registry :=
  if includes validChannels channel then ipcRenderer_once channel l r else r.

(** [api.updates.removeAllListeners] *)
Definition updates_removeAllListeners (channel : string) (r : registry)
  : registry :=
  ipcRenderer_removeAllListeners channel r.

(** [l] is registered nowhere in [r]. *)
Definition unregistered (l : listener) (r : registry) : Prop :=
  forall channel regs g,
    r !! channel = Some regs -> g ∈ regs -> target g <> l.

(** [g] is the one registration of [l], and it is on [channel]. *)
Definition sole_registration
    (l : listener) (channel : string) (g : registration) (r : registry)
  : Prop :=
  (exists regs, r !! channel = Some regs
                /\ filter (fun g => target g = l) regs = [g])
  /\ forall c regs g', c <> channel ->
       r !! c = Some regs -> g' ∈ regs -> target g' <> l.

End Preload.

(** ** The privileged side: [src/main/index.ts] *)

Module Main.

Definition BrowserWindow : Type := nat.

(** One [webContents.send(channel, ...args)] received by the renderer. *)
Record ipc_message : Type := { channel : string; args : list value }.

(** The methods of [autoUpdater] the handlers call. *)
Inductive updater_call : Type :=
| checkForUpdates
| downloadUpdate
| quitAndInstall.

(** The two closures handed to the timers by the dev-mode simulation: the
    one of [setTimeout] in [update-check], and the one of [setInterval] in
    [update-download] together with the current value of its captured
    variable [pct]. *)
Inductive timer_callback : Type :=
| announce_available
| progress_tick (pct : Z).

Record timer : Type := { due : nat; callback : timer_callback }.

(** What the process reads from [app] and from [Math.random]: constant
    during a run.  [entropy i] stands for the [i]-th value of
    [Math.random() * 20], of which the code keeps the floor. *)
Record environment : Type := {
  isPackaged : bool;
  getVersion : string;
  entropy : nat -> nat
}.

(** The state of the process: [mainWindow] is the variable of that name
    ([BrowserWindow | null]); [sent] is what the window was sent and
    [updater_calls] the calls made on [autoUpdater], both oldest first;
    [now] is the clock of the event loop in ms; [timers] are the armed
    timers in arming order; [draws] counts the calls of [Math.random]. *)
Record state : Type := {
  app : environment;
  mainWindow : option BrowserWindow;
  sent : list ipc_message;
  updater_calls : list updater_call;
  now : nat;
  timers : list timer;
  draws : nat
}.

Definition set_mainWindow (w : option BrowserWindow) (st : state) : state :=
  {| app := app st; mainWindow := w; sent := sent st;
     updater_calls := updater_calls st; now := now st;
     timers := timers st; draws := draws st |}.

Definition set_sent (l : list ipc_message) (st : state) : state :=
  {| app := app st; mainWindow := mainWindow st; sent := l;
     updater_calls := updater_calls st; now := now st;
     timers := timers st; draws := draws st |}.

Definition set_updater_calls (l : list updater_call) (st : state) : state :=
  {| app := app st; mainWindow := mainWindow st; sent := sent st;
     updater_calls := l; now := now st;
     timers := timers st; draws := draws st |}.

Definition set_clock (t : nat) (ts : list timer) (st : state) : state :=
  {| app := app st; mainWindow := mainWindow st; sent := sent st;
     updater_calls := updater_calls st; now := t;
     timers := ts; draws := draws st |}.

Definition set_draws (n : nat) (st : state) : state :=
  {| app := app st; mainWindow := mainWindow st; sent := sent st;
     updater_calls := updater_calls st; now := now st;
     timers := timers st; draws := n |}.

(** The state at process start, before [app.whenReady()] resolves. *)
Definition start (e : environment) : state :=
  {| app := e; mainWindow := None; sent := []; updater_calls := [];
     now := 0; timers := []; draws := 0 |}.

(** Code of the main process: it reads and changes the state and ends
    normally or by throwing. *)
Definition M (A : Type) : Type := state -> completion A * state.

#[export] Instance M_ret : MRet M := fun A a st => (Normal a, st).

#[export] Instance M_bind : MBind M := fun A B k m st =>
  match m st with
  | (Normal a, st') => k a st'
  | (Throw e, st') => (Throw e, st')
  end.

(** An expression that touches no state. *)
Definition eval {A} (c : completion A) : M A := fun st => (c, st).

(** [try { body } catch (error) { handler }] *)
Definition try_catch {A} (body : M A) (handler : value -> M A) : M A :=
  fun st =>
    match body st with
    | (Normal a, st') => (Normal a, st')
    | (Throw e, st') => handler e st'
    end.

Definition result {A} (m : M A) (st : state) : completion A := fst (m st).
Definition after {A} (m : M A) (st : state) : state := snd (m st).

(** [mainWindow?.webContents.send(channel, ...args)]: nothing is sent when
    [mainWindow] is null. *)
Definition send (ch : string) (payload : list value) : M unit := fun st =>
  (Normal tt,
   match mainWindow st with
   | Some _ => set_sent (sent st ++ [{| channel := ch; args := payload |}]) st
   | None => st
   end).

Definition app_isPackaged : M bool :=
  fun st => (Normal (isPackaged (app st)), st).

Definition app_getVersion : M string :=
  fun st => (Normal (getVersion (app st)), st).

(** A call of an [autoUpdater] method.  The library is external: how the
    call ends is the argument [outcome]. *)
Definition autoUpdater {A} (c : updater_call) (outcome : completion A) : M A :=
  fun st => (outcome, set_updater_calls (updater_calls st ++ [c]) st).

(** [setTimeout(f, delay)] and the arming of [setInterval(f, delay)]. *)
Definition arm (f : timer_callback) (delay : nat) : M unit := fun st =>
  (Normal tt,
   set_clock (now st)
     (timers st ++ [{| due := now st + delay; callback := f |}]) st).

(** [Math.floor(Math.random() * 20)]: an integer from 0 to 19. *)
Definition random20 : M Z := fun st =>
  (Normal (Z.of_nat (entropy (app st) (draws st) mod 20)),
   set_draws (S (draws st)) st).

(** *** Forwarding of the updater's events (lines 62 to 84, the same in
    both versions of the file) *)

Inductive updater_event : Type :=
| checking_for_update
| update_available (info : value)
| update_not_available (info : value)
| download_progress (progressObj : value)
| update_downloaded (info : value)
| error (err : value).     (* whatever the library hands over *)

Definition on_updater_event (ev : updater_event) : M unit :=
  match ev with
  | checking_for_update => send "checking-for-update" []
  | update_available info => send "update-available" [info]
  | update_not_available info => send "update-not-available" [info]
  | download_progress progressObj => send "download-progress" [progressObj]
  | update_downloaded info => send "update-downloaded" [info]
  | error err =>
      send "update-error"
        [if nullish err then VStr "unknown" else message_of err]
  end.


(** [createWindow()], as far as the update flow sees it. *)
Definition createWindow (w : BrowserWindow) : M unit := fun st =>
  (Normal tt, set_mainWindow (Some w) st).

(** [ipcMain.handle('get-app-version', () => app.getVersion())] *)
Definition get_app_version : M value :=
  v ← app_getVersion; mret (VStr v).

(** *** The handlers of [src/main/index.ts] *)

Module Plain.

Definition update_check (lib : completion value) : M value :=
  try_catch
    (autoUpdater checkForUpdates lib)
    (fun error => m ← eval (read_message error); mret (error_reply m)).

Definition update_download (lib : completion value) : M value :=
  try_catch
    (autoUpdater downloadUpdate lib)
    (fun error => m ← eval (read_message error); mret (error_reply m)).

Definition update_install (lib : completion unit) : M value :=
  try_catch
    (autoUpdater quitAndInstall lib;;
     mret ok_object)
    (fun error => m ← eval (read_message error); mret (error_reply m)).

End Plain.

(** *** The handlers of the version with the dev-mode simulation *)

Module Dev.

Definition update_check (lib : completion value) : M value :=
  try_catch
    (packaged ← app_isPackaged;
     if negb packaged then
       send "checking-for-update" [];;
       arm announce_available 800;;
       mret simulated_object
     else
       autoUpdater checkForUpdates lib)
    (fun error => m ← eval (read_message error); mret (error_reply m)).

Definition update_download (lib : completion value) : M value :=
  try_catch
    (packaged ← app_isPackaged;
     if negb packaged then
       arm (progress_tick 0) 300;;
       mret simulated_object
     else
       autoUpdater downloadUpdate lib)
    (fun error => m ← eval (read_message error); mret (error_reply m)).

Definition update_install (lib : completion unit) : M value :=
  try_catch
    (autoUpdater quitAndInstall lib;;
     mret ok_object)
    (fun error => m ← eval (read_message error); mret (error_reply m)).

(** The body of a timer's closure.  For the interval, [clearInterval(t)]
    is the branch that arms nothing; otherwise the interval fires again
    300 ms later with the new [pct]. *)
Definition run_callback (f : timer_callback) : M unit :=
  match f with
  | announce_available =>
      v ← app_getVersion;
      send "update-available"
        [VObj [("version", VStr (v +:+ "-dev"));
               ("releaseName", VStr ("dev-simulated-" +:+ v))]]
  | progress_tick pct =>
      k ← random20;
      let pct := (pct + (k + 5))%Z in
      let pct := if (100 <=? pct)%Z then 100%Z else pct in
      send "download-progress" [VObj [("percent", VNum pct)]];;
      if (100 <=? pct)%Z then
        v ← app_getVersion;
        send "update-downloaded" [VObj [("version", VStr (v +:+ "-dev"))]]
      else
        arm (progress_tick pct) 300
  end.

End Dev.

(** *** The event loop *)

(** The timer that fires next, and the ones that stay armed: the earliest
    due, and among equals the one armed first. *)
Fixpoint next_timer (ts : list timer) : option (timer * list timer) :=
  match ts with
  | [] => None
  | t :: rest =>
      match next_timer rest with
      | None => Some (t, [])
      | Some (u, rest') =>
          if (due t <=? due u)%nat then Some (t, rest) else Some (u, t :: rest')
      end
  end.

(** The event loop runs the next timer, if there is one. *)
Definition fire_next (st : state) : state :=
  match next_timer (timers st) with
  | None => st
  | Some (t, rest) =>
      after (Dev.run_callback (callback t))
            (set_clock (Nat.max (now st) (due t)) rest st)
  end.

Fixpoint run_timers (n : nat) (st : state) : state :=
  match n with
  | O => st
  | S n => run_timers n (fire_next st)
  end.

(** *** What reaches the main process from outside

    A request of the renderer on one of the three update channels (with
    the way the library call made for it, if any, ends), or an event of
    the updater library. *)
Inductive occurrence : Type :=
| invoked_check (lib : completion value)
| invoked_download (lib : completion value)
| invoked_install (lib : completion unit)
| emitted (ev : updater_event).

(** The registrations of [ipcMain.handle] and [autoUpdater.on], for the
    two versions of the file. *)
Definition plain_handle (o : occurrence) (st : state) : state :=
  match o with
  | invoked_check lib => after (Plain.update_check lib) st
  | invoked_download lib => after (Plain.update_download lib) st
  | invoked_install lib => after (Plain.update_install lib) st
  | emitted ev => after (on_updater_event ev) st
  end.

Definition dev_handle (o : occurrence) (st : state) : state :=
  match o with
  | invoked_check lib => after (Dev.update_check lib) st
  | invoked_download lib => after (Dev.update_download lib) st
  | invoked_install lib => after (Dev.update_install lib) st
  | emitted ev => after (on_updater_event ev) st
  end.

Definition plain_run (history : list occurrence) (st : state) : state :=
  foldl (fun st o => plain_handle o st) st history.

Definition dev_run (history : list occurrence) (st : state) : state :=
  foldl (fun st o => dev_handle o st) st history.

(** The messages the window was sent on one channel. *)
Definition sent_on (ch : string) (st : state) : list ipc_message :=
  filter (fun m => channel m = ch) (sent st).

(** An object [{ error: m }], whatever [m] is. *)
Definition is_error_object (v : value) : Prop :=
  exists m, v = error_reply m.

End Main.

(** ** The update status machine of the specification *)

Module Spec.

(** Modelled from the spec: the status of the update lifecycle and its
    transition table.  The source has no variable that holds a status;
    the table is followed here so that statements can speak of the status
    the machine is in after a history of requests and library events.
    A trigger the table does not list for a status leaves it as it is. *)
Inductive UpdateStatus : Type :=
| Idle
| Checking
| Available
| NotAvailable
| Downloading
| Downloaded
| Error.

Inductive trigger : Type :=
| check_requested
| reports_update_found
| reports_no_update
| reports_failure
| download_requested
| reports_progress
| reports_completion
| install_requested.

Definition transition (s : UpdateStatus) (t : trigger) : UpdateStatus :=
  match s, t with
  | (Idle | NotAvailable | Error), check_requested => Checking
  | Checking, reports_update_found => Available
  | Checking, reports_no_update => NotAvailable
  | (Checking | Available), reports_failure => Error
  | Available, download_requested => Downloading
  | Downloading, reports_progress => Downloading
  | Downloading, reports_completion => Downloaded
  | _, _ => s
  end.

Definition trigger_of (o : Main.occurrence) : option trigger :=
  match o with
  | Main.invoked_check _ => Some check_requested
  | Main.invoked_download _ => Some download_requested
  | Main.invoked_install _ => Some install_requested
  | Main.emitted Main.checking_for_update => None
  | Main.emitted (Main.update_available _) => Some reports_update_found
  | Main.emitted (Main.update_not_available _) => Some reports_no_update
  | Main.emitted (Main.download_progress _) => Some reports_progress
  | Main.emitted (Main.update_downloaded _) => Some reports_completion
  | Main.emitted (Main.error _) => Some reports_failure
  end.

(** The status after a history that began at process start ([Idle]). *)
Definition status_after (history : list Main.occurrence) : UpdateStatus :=
  foldl (fun s o => from_option (transition s) s (trigger_of o)) Idle history.

End Spec.

(** ** The presenter: the [Versions] component *)

Module Renderer.

(** The functions the buttons call. *)
Inductive handler : Type :=
| startCheck
| startDownload
| installAndRelaunch
| showAppVersion.     (* the inline debug helper of the second version *)

#[export] Instance handler_eq_dec : EqDecision handler.
Proof. solve_decision. Defined.

(** What the component returns: text, buttons and other elements. *)
Inductive node : Type :=
| text (s : string)
| button (className : option string) (onClick : handler) (disabled : bool)
         (children : list node)
| element (tag : string) (className : option string) (children : list node).

Record process_versions : Type := {
  electron : string;
  chrome : string;
  nodejs : string
}.

(** The [useState] cells of the component. *)
Record state : Type := {
  versions : process_versions;
  appVersion : option string;
  availableVersion : option string;
  updateAvailable : bool;
  downloadProgress : option Z;
  downloaded : bool;
  checking : bool;
  notAvailableMessage : option string
}.

(** Truthiness of a [string | null]. *)
Definition truthy (s : option string) : bool :=
  match s with
  | None | Some EmptyString => false
  | Some _ => true
  end.

(** [{cond && node}]: nothing is rendered when [cond] is false. *)
Definition when (cond : bool) (n : node) : list node :=
  if cond then [n] else [].

Definition versions_list (s : state) : node :=
  element "ul" (Some "versions")
    [ element "li" (Some "electron-version")
        [text ("Electron v" +:+ electron (versions s))];
      element "li" (Some "chrome-version")
        [text ("Chromium v" +:+ chrome (versions s))];
      element "li" (Some "node-version")
        [text ("Node v" +:+ nodejs (versions s))] ].

Definition app_versions (s : state) : node :=
  element "div" (Some "app-versions")
    [ element "div" None
        [text ("Installed: " +:+ default "—" (appVersion s))];
      element "div" None
        [text ("Available: " +:+ default "—" (availableVersion s))] ].

Definition check_button (s : state) : node :=
  button None startCheck (checking s)
    [text (if checking s then "Checking..." else "Check for updates")].

Definition update_msg (s : state) : list node :=
  when (truthy (notAvailableMessage s))
    (element "span" (Some "update-msg")
       [text (default EmptyString (notAvailableMessage s))]).

Definition download_notification (s : state) : list node :=
  when (updateAvailable s && negb (downloaded s))
    (element "div" (Some "update-notification")
       ([ element "div" None
            [text ("Update available" +:+
                   (if truthy (availableVersion s)
                    then ": v" +:+ default EmptyString (availableVersion s)
                    else EmptyString))];
          element "div" (Some "update-actions")
            [button None startDownload false [text "Download"]] ]
        ++ match downloadProgress s with
           | Some p =>
               [element "div" None
                  [text ("Downloading: " +:+ pretty p +:+ "%")]]
           | None => []
           end)).

Definition install_notification (s : state) : list node :=
  when (downloaded s)
    (element "div" (Some "update-notification")
       [ element "div" None [text "Update downloaded and ready to install."];
         element "div" (Some "update-actions")
           [button None installAndRelaunch false
              [text "Install and Relaunch"]] ]).

(** The first version of the component. *)
Definition Versions (s : state) : node :=
  element "div" None
    ([ versions_list s;
       app_versions s;
       element "div" (Some "update-check") (check_button s :: update_msg s) ]
     ++ download_notification s
     ++ install_notification s).

(** The second version, with the button that shows the app version. *)
Definition Versions_debug (s : state) : node :=
  element "div" None
    ([ versions_list s;
       app_versions s;
       element "div" (Some "update-check")
         (check_button s
          :: button (Some "show-app-version") showAppVersion false
               [text "Show app version"]
          :: update_msg s) ]
     ++ download_notification s
     ++ install_notification s).

(** The text inside a node. *)
Fixpoint text_of (n : node) : string :=
  match n with
  | text s => s
  | button _ _ _ cs => foldr (fun c acc => text_of c +:+ acc) EmptyString cs
  | element _ _ cs => foldr (fun c acc => text_of c +:+ acc) EmptyString cs
  end.

(** A button as the user meets it: what it calls, its label, and whether it
    is disabled. *)
Record action : Type := {
  calls : handler;
  label : string;
  is_disabled : bool
}.

(** The buttons of a rendered tree, in document order. *)
Fixpoint buttons (n : node) : list action :=
  match n with
  | text _ => []
  | button _ h d cs =>
      [{| calls := h;
          label := foldr (fun c acc => text_of c +:+ acc) EmptyString cs;
          is_disabled := d |}]
  | element _ _ cs => flat_map buttons cs
  end.

(** The buttons that call [h]. *)
Definition actions_for (h : handler) (view : node) : list action :=
  filter (fun a => calls a = h) (buttons view).

End Renderer.

(** ** Runs of the main process with its timers *)

Module Loop.
Import Main.

(** Anything that makes the main process run code: something from outside,
    or the event loop firing the next timer. *)
Inductive activity : Type :=
| outside (o : occurrence)
| timer_fires.

Definition dev_act (a : activity) (st : state) : state :=
  match a with
  | outside o => dev_handle o st
  | timer_fires => fire_next st
  end.

(** Any interleaving of requests, updater events and timers. *)
Definition dev_play (acts : list activity) (st : state) : state :=
  foldl (fun st a => dev_act a st) st acts.

Definition is_install (a : activity) : bool :=
  match a with
  | outside (invoked_install _) => true
  | _ => false
  end.

Definition is_progress (t : timer) : bool :=
  match callback t with
  | progress_tick _ => true
  | announce_available => false
  end.

(** How many firings a timer can still need: one for the timeout; for the
    interval at [pct], one per step of 5 up to 100. *)
Definition firings_left (t : timer) : nat :=
  match callback t with
  | announce_available => 1
  | progress_tick pct => S (Z.to_nat ((99 - pct) / 5))
  end.

Definition budget (ts : list timer) : nat :=
  foldr (fun t n => firings_left t + n) 0 ts.

(** The armed intervals (one per simulated download under way) and the
    armed timeouts (one per simulated check under way). *)
Definition downloads_pending (ts : list timer) : nat :=
  length (filter (fun t => is_progress t = true) ts).

Definition checks_pending (ts : list timer) : nat :=
  length (filter (fun t => is_progress t = false) ts).

(** [n] when the main window exists, 0 when [mainWindow] is null. *)
Definition with_window (st : state) (n : nat) : nat :=
  match mainWindow st with
  | Some _ => n
  | None => 0
  end.

End Loop.

(** ** The component's effects: listeners, mount, cleanup, version fetch *)

Module Component.
Import Preload Renderer.

(** [x.key] on an object literal; [undefined] for a key it does not have. *)
Fixpoint get_field (key : string) (fields : list (string * value)) : value :=
  match fields with
  | [] => VUndefined
  | (k, v) :: rest => if decide (k = key) then v else get_field key rest
  end.

(** [(x as any)?.key], for the keys the component reads ([version],
    [percent]), which no primitive value has. *)
Definition optional_prop (key : string) (x : value) : value :=
  match x with
  | VObj fields => get_field key fields
  | _ => VUndefined
  end.

(** [a ?? b] *)
Definition coalesce (a b : value) : value :=
  match a with
  | VUndefined | VNull => b
  | _ => a
  end.

(** [if (v)] *)
Definition js_truthy (v : value) : bool :=
  match v with
  | VUndefined | VNull => false
  | VBool b => b
  | VNum n => negb (n =? 0)%Z
  | VStr EmptyString => false
  | VStr _ => true
  | VObj _ => true
  end.

(** A value written to a [string | null] cell.  The listeners write what
    they read under [as any]; a value that is neither a string nor null has
    no place in the typed cell and is left out of the model ([None]). *)
Definition string_cell (v : value) : option (option string) :=
  match v with
  | VStr s => Some (Some s)
  | VNull => Some None
  | _ => None
  end.

Definition set_appVersion (v : option string) (s : state) : state :=
  {| versions := versions s; appVersion := v;
     availableVersion := availableVersion s;
     updateAvailable := updateAvailable s;
     downloadProgress := downloadProgress s; downloaded := downloaded s;
     checking := checking s; notAvailableMessage := notAvailableMessage s |}.

Definition set_availableVersion (v : option string) (s : state) : state :=
  {| versions := versions s; appVersion := appVersion s;
     availableVersion := v;
     updateAvailable := updateAvailable s;
     downloadProgress := downloadProgress s; downloaded := downloaded s;
     checking := checking s; notAvailableMessage := notAvailableMessage s |}.

Definition set_updateAvailable (b : bool) (s : state) : state :=
  {| versions := versions s; appVersion := appVersion s;
     availableVersion := availableVersion s;
     updateAvailable := b;
     downloadProgress := downloadProgress s; downloaded := downloaded s;
     checking := checking s; notAvailableMessage := notAvailableMessage s |}.

Definition set_downloadProgress (p : option Z) (s : state) : state :=
  {| versions := versions s; appVersion := appVersion s;
     availableVersion := availableVersion s;
     updateAvailable := updateAvailable s;
     downloadProgress := p; downloaded := downloaded s;
     checking := checking s; notAvailableMessage := notAvailableMessage s |}.

Definition set_downloaded (b : bool) (s : state) : state :=
  {| versions := versions s; appVersion := appVersion s;
     availableVersion := availableVersion s;
     updateAvailable := updateAvailable s;
     downloadProgress := downloadProgress s; downloaded := b;
     checking := checking s; notAvailableMessage := notAvailableMessage s |}.

Definition set_checking (b : bool) (s : state) : state :=
  {| versions := versions s; appVersion := appVersion s;
     availableVersion := availableVersion s;
     updateAvailable := updateAvailable s;
     downloadProgress := downloadProgress s; downloaded := downloaded s;
     checking := b; notAvailableMessage := notAvailableMessage s |}.

Definition set_notAvailableMessage (m : option string) (s : state) : state :=
  {| versions := versions s; appVersion := appVersion s;
     availableVersion := availableVersion s;
     updateAvailable := updateAvailable s;
     downloadProgress := downloadProgress s; downloaded := downloaded s;
     checking := checking s; notAvailableMessage := m |}.

(** The state of [useState] at the first render. *)
Definition initial (vs : process_versions) : state :=
  {| versions := vs; appVersion := None; availableVersion := None;
     updateAvailable := false; downloadProgress := None;
     downloaded := false; checking := false; notAvailableMessage := None |}.

(** The six listeners the effect registers. *)
Inductive callback : Type :=
| on_checking
| on_available
| on_not_available
| on_progress
| on_downloaded
| on_error.

(** What a listener does to the cells when it is called with [data].
    [Math.round] is the identity on the numbers of [value]. *)
Definition call (c : callback) (data : value) (s : state) : option state :=
  match c with
  | on_checking =>
      Some (set_notAvailableMessage None (set_checking true s))
  | on_available =>
      ver ← string_cell (coalesce (optional_prop "version" data) VNull);
      Some (set_availableVersion ver
              (set_updateAvailable true (set_checking false s)))
  | on_not_available =>
      Some (set_notAvailableMessage (Some "No updates are available")
              (set_updateAvailable false (set_checking false s)))
  | on_progress =>
      let pct :=
        coalesce (optional_prop "percent" data)
                 (match data with
                  | VNum n => VNum n
                  | _ => VUndefined
                  end) in
      Some (set_downloadProgress
              (match pct with
               | VNum n => Some n
               | _ => None
               end) s)
  | on_downloaded =>
      let s := set_downloadProgress (Some 100%Z) (set_downloaded true s) in
      let ver := coalesce (optional_prop "version" data) VNull in
      if js_truthy ver then
        ver ← string_cell ver; Some (set_availableVersion ver s)
      else Some s
  | on_error =>
      Some (set_checking false s)
  end.

(** [startCheck], in its two halves: up to the [await], and when the
    promise of [checkForUpdates] settles. *)
Definition startCheck_begin (s : state) : state :=
  set_checking true (set_notAvailableMessage None s).

Definition startCheck_settle (outcome : completion value) (s : state)
  : state :=
  match outcome with
  | Normal _ => s
  | Throw _ => set_checking false s
  end.

(** What happens to a mounted component. *)
Inductive step : Type :=
| heard (c : callback) (data : value)
| check_clicked
| check_settled (outcome : completion value).

Definition do_step (x : step) (s : state) : option state :=
  match x with
  | heard c data => call c data s
  | check_clicked => Some (startCheck_begin s)
  | check_settled outcome => Some (startCheck_settle outcome s)
  end.

Fixpoint run (steps : list step) (s : state) : option state :=
  match steps with
  | [] => Some s
  | x :: rest => s' ← do_step x s; run rest s'
  end.

(** The listeners of the [instance]-th mount of the component, as
    identities for [ipcRenderer]. *)
Definition index (c : callback) : nat :=
  match c with
  | on_checking => 0
  | on_available => 1
  | on_not_available => 2
  | on_progress => 3
  | on_downloaded => 4
  | on_error => 5
  end.

Definition listener_of (instance : nat) (c : callback) : listener :=
  6 * instance + index c.

Definition callback_of (l : listener) : callback :=
  match l mod 6 with
  | 0 => on_checking
  | 1 => on_available
  | 2 => on_not_available
  | 3 => on_progress
  | 4 => on_downloaded
  | _ => on_error
  end.

(** The subscriptions of the effect, in the order of the source. *)
Definition mount (instance : nat) (r : registry) : registry :=
  updates_on "update-error" (listener_of instance on_error)
    (updates_on "update-downloaded" (listener_of instance on_downloaded)
       (updates_on "download-progress" (listener_of instance on_progress)
          (updates_on "update-not-available"
             (listener_of instance on_not_available)
             (updates_on "update-available"
                (listener_of instance on_available)
                (updates_on "checking-for-update"
                   (listener_of instance on_checking) r))))).

(** The function the effect returns. *)
Definition cleanup (r : registry) : registry :=
  updates_removeAllListeners "update-error"
    (updates_removeAllListeners "update-downloaded"
       (updates_removeAllListeners "download-progress"
          (updates_removeAllListeners "update-available" r))).

(** [n] mounts of the component, each followed by its cleanup. *)
Fixpoint remounts (n : nat) (r : registry) : registry :=
  match n with
  | O => r
  | S k => cleanup (mount k (remounts k r))
  end.

(** What [ipcRenderer] emits for the messages the main process sent: the
    wrapper of the bridge passes the first argument on. *)
Definition traffic_of (msgs : list Main.ipc_message)
  : list (string * value) :=
  map (fun m => (Main.channel m, hd VUndefined (Main.args m))) msgs.

(** The listener calls that reach the [instance]-th mount. *)
Definition steps_for (instance : nat) (calls : list (listener * value))
  : list step :=
  map (fun c => heard (callback_of c.1) c.2)
      (filter (fun c => c.1 / 6 = instance) calls).

(** *** [fetchVersion] of the second version of the component

    [answers i] is how the [i]-th request for the app version ends, by
    whichever path it is made.  The result is the version set, the number
    of requests made and the number of 200 ms waits. *)

Definition nonempty (v : string) : bool :=
  match v with
  | EmptyString => false
  | _ => true
  end.

(** An answer that does not set the version: a rejection or an empty
    string. *)
Definition useless (a : completion string) : Prop :=
  match a with
  | Normal v => nonempty v = false
  | Throw _ => True
  end.

(** One of the two paths inside the [try]: skipped when the path is not
    there; [Some v] is [return setAppVersion(v)]. *)
Definition try_path (present : bool) (answers : nat -> completion string)
    (calls : nat) : completion (option string) * nat :=
  if present then
    match answers calls with
    | Normal v => (Normal (if nonempty v then Some v else None), S calls)
    | Throw e => (Throw e, S calls)
    end
  else (Normal None, calls).

(** The body of the loop up to the wait: the exposed API first, then the
    fallback; an exception in either ends the attempt. *)
Definition attempt (api fallback : bool) (answers : nat -> completion string)
    (calls : nat) : option string * nat :=
  match try_path api answers calls with
  | (Normal (Some v), c) => (Some v, c)
  | (Throw _, c) => (None, c)
  | (Normal None, c) =>
      match try_path fallback answers c with
      | (Normal (Some v), c') => (Some v, c')
      | (_, c') => (None, c')
      end
  end.

Fixpoint fetch_attempts (n : nat) (api fallback : bool)
    (answers : nat -> completion string) (calls waits : nat)
  : option string * nat * nat :=
  match n with
  | O => (None, calls, waits)
  | S n =>
      match attempt api fallback answers calls with
      | (Some v, c) => (Some v, c, waits)
      | (None, c) => fetch_attempts n api fallback answers c (S waits)
      end
  end.

Definition fetchVersion (api fallback : bool)
    (answers : nat -> completion string) : option string * nat * nat :=
  fetch_attempts 3 api fallback answers 0 0.

End Component.

(** ** Concrete runs *)

Module Samples.
Import Main.

(** An unpackaged run of version 1.0.0 in which every call of
    [Math.random] returns 0, and a packaged one. *)
Definition dev_env : environment :=
  {| isPackaged := false; getVersion := "1.0.0"; entropy := fun _ => 0 |}.

Definition packaged_env : environment :=
  {| isPackaged := true; getVersion := "1.0.0"; entropy := fun _ => 0 |}.

(** The process once [app.whenReady()] has run: the window exists, nothing
    else has happened. *)
Definition ready (e : environment) : state :=
  after (createWindow 1) (start e).

End Samples.

(** * Properties *)

(** ** The bridge *)

Section Bridge.
Import Preload.

Lemma includes_validChannels channel :
  includes validChannels channel = true <->
  channel ∈ validChannels.
Proof. unfold includes. apply bool_decide_eq_true. Qed.

(** Off the allow-list, [on] and [once] leave [ipcRenderer] as it is. *)
Lemma updates_on_unlisted channel l (r : registry) :
  includes validChannels channel = false ->
  updates_on channel l r = r.
Proof. intros H. unfold updates_on. by rewrite H. Qed.

Lemma updates_once_unlisted channel l (r : registry) :
  includes validChannels channel = false ->
  updates_once channel l r = r.
Proof. intros H. unfold updates_once. by rewrite H. Qed.

(** On the allow-list they register. *)
Lemma updates_on_listed channel l (r : registry) :
  includes validChannels channel = true ->
  updates_on channel l r !! channel
  = Some (default [] (r !! channel)
          ++ [{| target := l; once_only := false |}]).
Proof.
  intros H. unfold updates_on, ipcRenderer_on. rewrite H.
  apply lookup_insert_eq.
Qed.

(** [removeAllListeners] clears the channel, whatever its name. *)
Lemma updates_removeAllListeners_clears channel (r : registry) :
  updates_removeAllListeners channel r !! channel = None.
Proof. apply lookup_delete_eq. Qed.

Lemma updates_removeAllListeners_others channel other (r : registry) :
  channel <> other ->
  updates_removeAllListeners channel r !! other = r !! other.
Proof. intros H. by apply lookup_delete_ne. Qed.

(** A message calls only listeners that are registered, and registers
    none. *)
Lemma emit_unregistered l channel data (r : registry) :
  unregistered l r ->
  Forall (fun c => c.1 <> l) (emit channel data r).1
  /\ unregistered l (emit channel data r).2.
Proof.
  intros Hl. unfold emit.
  destruct (r !! channel) as [regs|] eqn:Hregs; simpl; [|by split].
  split.
  - apply Forall_forall. intros [l' d] Hin.
    apply list_elem_of_fmap in Hin as (g & Hg & Hin).
    injection Hg as -> ->. simpl. by eapply Hl.
  - assert (Hsub : forall g,
               g ∈ filter (fun g => once_only g = false) regs -> g ∈ regs).
    { intros g Hg. by apply list_elem_of_filter in Hg as [_ ?]. }
    destruct (filter (fun g => once_only g = false) regs) as [|g0 keep].
    + intros c regs' g Hc Hg.
      destruct (decide (channel = c)) as [->|Hne].
      * by rewrite lookup_delete_eq in Hc.
      * rewrite lookup_delete_ne in Hc by done. by eapply Hl.
    + intros c regs' g Hc Hg.
      destruct (decide (channel = c)) as [->|Hne].
      * rewrite lookup_insert_eq in Hc. injection Hc as <-.
        eapply Hl; [exact Hregs|]. by apply Hsub.
      * rewrite lookup_insert_ne in Hc by done. by eapply Hl.
Qed.

Lemma deliver_unregistered l traffic : forall r : registry,
  unregistered l r ->
  Forall (fun c => c.1 <> l) (deliver traffic r).
Proof.
  induction traffic as [|[channel data] rest IH]; intros r Hl; simpl.
  - constructor.
  - destruct (emit_unregistered l channel data r Hl) as [Hcalls Hl'].
    destruct (emit channel data r) as [calls r']. simpl in *.
    apply Forall_app. split; [done|]. by apply IH.
Qed.

(** C1, the failing case: [removeAllListeners] has no allow-list check.
    Called with the name of a channel that is not on the list and on which
    a listener is registered, it removes that listener. *)
Theorem removeAllListeners_unlisted_channel_removes :
  let r : registry :=
    {[ "internal-channel" := [{| target := 7; once_only := false |}] ]} in
  includes validChannels "internal-channel" = false
  /\ r !! "internal-channel" = Some [{| target := 7; once_only := false |}]
  /\ updates_removeAllListeners "internal-channel" r !! "internal-channel"
     = None
  /\ updates_removeAllListeners "internal-channel" r <> r.
Proof.
  intros r. split; [done|]. split; [apply lookup_singleton_eq|].
  split; [apply lookup_delete_eq|].
  intros Heq.
  assert (H : updates_removeAllListeners "internal-channel" r
              !! "internal-channel" = r !! "internal-channel")
    by (by rewrite Heq).
  unfold r in H.
  rewrite updates_removeAllListeners_clears, lookup_singleton_eq in H.
  discriminate.
Qed.

(** C8: a listener given to [on] or [once] with a channel name that is not
    on the allow-list is never called, whatever messages arrive: the
    subscription changes nothing in what the messages call, and a listener
    that was registered nowhere before is called by none of them. *)
Theorem unlisted_subscription_never_invoked
    (channel : string) (l : listener) (r : registry)
    (traffic : list (string * value)) :
  includes validChannels channel = false ->
  unregistered l r ->
  (deliver traffic (updates_on channel l r) = deliver traffic r
   /\ Forall (fun c => c.1 <> l) (deliver traffic (updates_on channel l r)))
  /\ (deliver traffic (updates_once channel l r) = deliver traffic r
      /\ Forall (fun c => c.1 <> l)
           (deliver traffic (updates_once channel l r))).
Proof.
  intros Hch Hl.
  rewrite updates_on_unlisted, updates_once_unlisted by done.
  repeat split; try done; by apply deliver_unregistered.
Qed.

Lemma unlisted_subscription_never_invoked_witness :
  let r : registry :=
    {[ "update-available" := [{| target := 1; once_only := false |}] ]} in
  let traffic := [("internal-channel", VStr "x"); ("update-available", VNull);
                  ("internal-channel", VNum 2)] in
  (deliver traffic (updates_on "internal-channel" 5 r) = deliver traffic r
   /\ Forall (fun c => c.1 <> 5)
        (deliver traffic (updates_on "internal-channel" 5 r)))
  /\ (deliver traffic (updates_once "internal-channel" 5 r) = deliver traffic r
      /\ Forall (fun c => c.1 <> 5)
           (deliver traffic (updates_once "internal-channel" 5 r))).
Proof.
  intros r traffic.
  apply (unlisted_subscription_never_invoked "internal-channel" 5 r traffic).
  - reflexivity.
  - intros c regs g Hc Hg. unfold r in Hc.
    apply lookup_singleton_Some in Hc as [_ <-].
    apply list_elem_of_singleton in Hg as ->. simpl. lia.
Defined.

End Bridge.

(** ** The privileged side *)

Section Privileged.
Import Main.

(** Unfolds a handler down to the state it returns. *)
Ltac run_handler :=
  cbv [after result
       Plain.update_check Plain.update_download Plain.update_install
       Dev.update_check Dev.update_download Dev.update_install
       Dev.run_callback on_updater_event get_app_version createWindow
       try_catch eval autoUpdater send arm random20 app_isPackaged
       app_getVersion
       mbind M_bind mret M_ret negb fst snd
       set_sent set_updater_calls set_clock set_draws set_mainWindow
       app mainWindow sent updater_calls now timers draws].

(** *** Forwarding of the updater's events *)

(** What [send] adds to the log of the window. *)
Lemma send_sent ch payload st :
  sent (after (send ch payload) st)
  = sent st ++ match mainWindow st with
               | Some _ => [{| channel := ch; args := payload |}]
               | None => []
               end.
Proof.
  unfold after, send. simpl.
  destruct (mainWindow st); simpl; [done|by rewrite app_nil_r].
Qed.


Lemma field_size key fields :
  size (field key fields) <= S (fields_size fields).
Proof.
  induction fields as [|[k x] fields IH].
  - simpl. lia.
  - change (fields_size ((k, x) :: fields))
      with (size x + fields_size fields).
    simpl field. case_decide; lia.
Qed.

Lemma size_pos v : 1 <= size v.
Proof. destruct v; simpl; lia. Qed.

(** What is read from an error is not the error itself. *)
Lemma error_text_differs err :
  (if nullish err then VStr "unknown" else message_of err) <> err.
Proof.
  destruct err as [| | | | |[|[k x] fields]]; simpl; try done.
  intros Heq.
  assert (Hsize : size (if decide (k = "message") then x
                        else field "message" fields)
                  = S (size x + fields_size fields))
    by (by rewrite Heq).
  clear Heq.
  pose proof (field_size "message" fields) as Hle.
  pose proof (size_pos x) as Hpos.
  case_decide; lia.
Qed.

(** C10, as stated, fails for an error value that is not null and has no
    message (here an object with a code only, and a string): what goes out
    on [update-error] is [undefined], not a string. *)
Lemma update_error_counterexample :
  let st := Samples.ready Samples.packaged_env in
  sent (after (on_updater_event (error (VObj [("code", VStr "ENOENT")]))) st)
  = [{| channel := "update-error"; args := [VUndefined] |}]
  /\ sent (after (on_updater_event (error (VStr "offline"))) st)
     = [{| channel := "update-error"; args := [VUndefined] |}]
  /\ forall text : string, VUndefined <> VStr text.
Proof. done. Qed.

(** C10, amended: what goes out on [update-error] for an error event of the
    updater is the string ['unknown'] when the error is null or undefined,
    and what its [message] property holds otherwise: the message string for
    an [Error] object, [undefined] for a value without a message.  The
    error value itself is never forwarded.  The payload is the only thing
    sent, and it is sent when the window exists. *)
Theorem update_error_payload (st : state) :
  (forall err : value,
      exists payload : value,
        payload = (if nullish err then VStr "unknown" else message_of err)
        /\ payload <> err
        /\ sent (after (on_updater_event (error err)) st)
           = sent st ++ match mainWindow st with
                        | Some _ => [{| channel := "update-error";
                                        args := [payload] |}]
                        | None => []
                        end)
  /\ (forall msg : string,
        sent (after (on_updater_event (error (new_Error msg))) st)
        = sent st ++ match mainWindow st with
                     | Some _ => [{| channel := "update-error";
                                     args := [VStr msg] |}]
                     | None => []
                     end).
Proof.
  split.
  - intros err. eexists. split; [reflexivity|].
    split; [apply error_text_differs|]. simpl. apply send_sent.
  - intros msg. simpl. apply send_sent.
Qed.

(** *** The install request *)

(** C2, as stated, fails at process start: no update was ever downloaded,
    the status is [Idle], and the handler calls [quitAndInstall] and
    answers [{ ok: true }] when that call returns. *)
Lemma install_counterexample :
  let st := plain_run [] (Samples.ready Samples.packaged_env) in
  Spec.status_after [] = Spec.Idle
  /\ Spec.status_after [] <> Spec.Downloaded
  /\ result (Plain.update_install (Normal tt)) st = Normal ok_object
  /\ ~ is_error_object ok_object
  /\ updater_calls (after (Plain.update_install (Normal tt)) st)
     = [quitAndInstall]
  /\ result (Dev.update_install (Normal tt)) st = Normal ok_object
  /\ updater_calls (after (Dev.update_install (Normal tt)) st)
     = [quitAndInstall].
Proof.
  repeat split; try done.
  intros [msg Hmsg]. discriminate.
Qed.

(** C2, amended: the install handler looks at no status.  Every call of it
    calls [quitAndInstall] once and sends nothing to the window, and both
    versions of the file agree.  It answers [{ ok: true }] when that call
    returns, and [{ error: m }] when that call throws a value that is not
    null or undefined, [m] being what the [message] property of that value
    holds. *)
Theorem install_always_calls_quitAndInstall
    (lib : completion unit) (st : state) :
  (updater_calls (after (Plain.update_install lib) st)
   = updater_calls st ++ [quitAndInstall]
   /\ sent (after (Plain.update_install lib) st) = sent st
   /\ Dev.update_install lib st = Plain.update_install lib st)
  /\ (rejects_nullish lib = false ->
      result (Plain.update_install lib) st
      = Normal match lib with
               | Normal _ => ok_object
               | Throw thrown => error_reply (message_of thrown)
               end).
Proof.
  split.
  - destruct lib as [[]|thrown]; [done|].
    run_handler. unfold read_message. by destruct (nullish thrown).
  - intros Hlib. destruct lib as [[]|thrown]; [done|]. simpl in Hlib.
    run_handler. unfold read_message. by rewrite Hlib.
Qed.

Lemma install_always_calls_quitAndInstall_witness :
  let st := Samples.ready Samples.packaged_env in
  let lib : completion unit := Throw (new_Error "no update to install") in
  (updater_calls (after (Plain.update_install lib) st) = [quitAndInstall]
   /\ sent (after (Plain.update_install lib) st) = []
   /\ Dev.update_install lib st = Plain.update_install lib st)
  /\ result (Plain.update_install lib) st
     = Normal (error_object "no update to install").
Proof.
  intros st lib.
  destruct (install_always_calls_quitAndInstall lib st) as [Hstate Hresult].
  split; [exact Hstate|]. apply Hresult. reflexivity.
Defined.

(** *** The download request *)

(** C3, as stated, fails in dev mode at process start: the status is
    [Idle], the handler answers [{ simulated: true }], and the timer it
    armed sends progress samples. *)
Lemma download_counterexample :
  let st := dev_run [] (Samples.ready Samples.dev_env) in
  Spec.status_after [] = Spec.Idle
  /\ Spec.status_after [] <> Spec.Available
  /\ result (Dev.update_download (Normal VNull)) st = Normal simulated_object
  /\ ~ is_error_object simulated_object
  /\ sent_on "download-progress" st = []
  /\ sent_on "download-progress"
       (run_timers 2 (after (Dev.update_download (Normal VNull)) st))
     = [ {| channel := "download-progress";
            args := [VObj [("percent", VNum 5)]] |};
         {| channel := "download-progress";
            args := [VObj [("percent", VNum 10)]] |} ].
Proof.
  repeat split; try done.
  intros [msg Hmsg]. discriminate.
Qed.

(** C3, amended: the download handler looks at no status.  In the version
    with the simulation, when the app is not packaged, every call arms the
    progress timer (first tick 300 ms later, starting from 0) and answers
    [{ simulated: true }] without calling the library.  Otherwise, and
    always in the other version, it calls [downloadUpdate] once and sends
    nothing itself; it answers with the library's result or, when the
    library rejects with a value that is not null or undefined, with
    [{ error: m }], [m] being what the [message] property of that value
    holds. *)
Theorem download_ignores_status (lib : completion value) (st : state) :
  (if isPackaged (app st) then
     Dev.update_download lib st = Plain.update_download lib st
   else
     result (Dev.update_download lib) st = Normal simulated_object
     /\ timers (after (Dev.update_download lib) st)
        = timers st ++ [{| due := now st + 300; callback := progress_tick 0 |}]
     /\ updater_calls (after (Dev.update_download lib) st) = updater_calls st
     /\ sent (after (Dev.update_download lib) st) = sent st)
  /\ updater_calls (after (Plain.update_download lib) st)
     = updater_calls st ++ [downloadUpdate]
  /\ sent (after (Plain.update_download lib) st) = sent st
  /\ timers (after (Plain.update_download lib) st) = timers st
  /\ (rejects_nullish lib = false ->
      result (Plain.update_download lib) st
      = Normal match lib with
               | Normal v => v
               | Throw thrown => error_reply (message_of thrown)
               end).
Proof.
  split; [|split; [|split; [|split]]].
  - run_handler. destruct st as [[[] v f] w s c n ts d]; by destruct lib.
  - destruct lib as [v|thrown]; [done|].
    run_handler. unfold read_message. by destruct (nullish thrown).
  - destruct lib as [v|thrown]; [done|].
    run_handler. unfold read_message. by destruct (nullish thrown).
  - destruct lib as [v|thrown]; [done|].
    run_handler. unfold read_message. by destruct (nullish thrown).
  - intros Hlib. destruct lib as [v|thrown]; [done|]. simpl in Hlib.
    run_handler. unfold read_message. by rewrite Hlib.
Qed.

Lemma download_ignores_status_witness :
  let st := Samples.ready Samples.packaged_env in
  let lib : completion value :=
    Throw (new_Error "Please check update first") in
  Dev.update_download lib st = Plain.update_download lib st
  /\ updater_calls (after (Plain.update_download lib) st) = [downloadUpdate]
  /\ sent (after (Plain.update_download lib) st) = []
  /\ timers (after (Plain.update_download lib) st) = []
  /\ result (Plain.update_download lib) st
     = Normal (error_object "Please check update first").
Proof.
  intros st lib.
  destruct (download_ignores_status lib st) as (Hdev & Hc & Hs & Ht & Hr).
  split; [exact Hdev|]. split; [exact Hc|]. split; [exact Hs|].
  split; [exact Ht|]. apply Hr. reflexivity.
Defined.

(** *** The check request *)

(** C5, as stated, fails in dev mode: after a first check the status is
    [Checking], and a second check sends a second [checking-for-update]. *)
Lemma repeated_check_counterexample :
  let history := [invoked_check (Normal VNull)] in
  let st := dev_run history (Samples.ready Samples.dev_env) in
  Spec.status_after history = Spec.Checking
  /\ sent_on "checking-for-update" st
     = [ {| channel := "checking-for-update"; args := [] |} ]
  /\ sent_on "checking-for-update"
       (after (Dev.update_check (Normal VNull)) st)
     = [ {| channel := "checking-for-update"; args := [] |};
         {| channel := "checking-for-update"; args := [] |} ].
Proof. done. Qed.

(** C5, amended: the check handler looks at no status.  In the version with
    the simulation, when the app is not packaged, every call, also one
    made while an earlier check is pending, sends [checking-for-update] to
    the window (if there is one) and arms the timer of the simulated
    answer.  Otherwise, and always in the other version, the handler sends
    nothing itself and calls [checkForUpdates] once per call. *)
Theorem check_ignores_status (lib : completion value) (st : state) :
  (if isPackaged (app st) then
     Dev.update_check lib st = Plain.update_check lib st
   else
     sent (after (Dev.update_check lib) st)
     = sent st ++ match mainWindow st with
                  | Some _ => [{| channel := "checking-for-update";
                                  args := [] |}]
                  | None => []
                  end
     /\ timers (after (Dev.update_check lib) st)
        = timers st ++ [{| due := now st + 800;
                           callback := announce_available |}]
     /\ updater_calls (after (Dev.update_check lib) st) = updater_calls st)
  /\ sent (after (Plain.update_check lib) st) = sent st
  /\ updater_calls (after (Plain.update_check lib) st)
     = updater_calls st ++ [checkForUpdates]
  /\ timers (after (Plain.update_check lib) st) = timers st.
Proof.
  split.
  - run_handler.
    destruct st as [[[] v f] [w|] s c n ts d]; destruct lib; simpl;
      rewrite ?app_nil_r; done.
  - destruct lib as [v|thrown]; [done|].
    run_handler. unfold read_message. by destruct (nullish thrown).
Qed.

(** C7, as stated, fails in dev mode: the answer is [{ simulated: true }],
    which is neither what the library returned (it was not called) nor an
    error object.  It also fails when the library rejects with [undefined]:
    reading the message throws inside the [catch]. *)
Lemma check_result_counterexample :
  let st := Samples.ready Samples.dev_env in
  result (Dev.update_check (Normal VNull)) st = Normal simulated_object
  /\ simulated_object <> VNull
  /\ ~ is_error_object simulated_object
  /\ updater_calls (after (Dev.update_check (Normal VNull)) st) = []
  /\ result (Plain.update_check (Throw VUndefined))
            (Samples.ready Samples.packaged_env)
     = Throw (TypeError VUndefined).
Proof.
  repeat split; try done.
  intros [msg Hmsg]. discriminate.
Qed.

(** C7, amended: the check handler answers with the library's result, or,
    when the library rejects with a value that is not null or undefined,
    with [{ error: m }], [m] being what the [message] property of that
    value holds (the message string for an [Error]), or, in the version
    with the simulation when the app is not packaged, with
    [{ simulated: true }]; in all these cases it does not throw. *)
Theorem check_result (lib : completion value) (st : state) :
  result (Dev.update_check lib) st
  = (if isPackaged (app st) then result (Plain.update_check lib) st
     else Normal simulated_object)
  /\ (rejects_nullish lib = false ->
      result (Plain.update_check lib) st
      = Normal match lib with
               | Normal v => v
               | Throw thrown => error_reply (message_of thrown)
               end).
Proof.
  split.
  - run_handler. destruct st as [[[] v f] w s c n ts d]; by destruct lib.
  - intros Hlib. destruct lib as [v|thrown]; [done|]. simpl in Hlib.
    run_handler. unfold read_message. by rewrite Hlib.
Qed.

Lemma check_result_witness :
  let st := Samples.ready Samples.packaged_env in
  let lib : completion value := Throw (new_Error "net::ERR_INTERNET") in
  result (Dev.update_check lib) st = result (Plain.update_check lib) st
  /\ result (Plain.update_check lib) st
     = Normal (error_object "net::ERR_INTERNET").
Proof.
  intros st lib.
  destruct (check_result lib st) as [Hdev Hresult].
  split; [exact Hdev|]. apply Hresult. reflexivity.
Defined.

(** *** The simulated flow *)

Lemma fire_next_idle st : timers st = [] -> fire_next st = st.
Proof. intros H. unfold fire_next. by rewrite H. Qed.

Lemma run_timers_idle n : forall st, timers st = [] -> run_timers n st = st.
Proof.
  induction n as [|n IH]; intros st H; simpl; [done|].
  rewrite fire_next_idle by done. by apply IH.
Qed.

(** One firing of the progress interval when it is the only timer. *)
Lemma fire_next_progress e w s c t d due0 p :
  let r := Z.of_nat (entropy e d mod 20) in
  fire_next {| app := e; mainWindow := Some w; sent := s;
               updater_calls := c; now := t;
               timers := [{| due := due0; callback := progress_tick p |}];
               draws := d |}
  = if (100 <=? p + (r + 5))%Z then
      {| app := e; mainWindow := Some w;
         sent := (s ++ [{| channel := "download-progress";
                           args := [VObj [("percent", VNum 100)]] |}])
                 ++ [{| channel := "update-downloaded";
                        args := [VObj [("version",
                                        VStr (getVersion e +:+ "-dev"))]] |}];
         updater_calls := c; now := Nat.max t due0; timers := [];
         draws := S d |}
    else
      {| app := e; mainWindow := Some w;
         sent := s ++ [{| channel := "download-progress";
                          args := [VObj [("percent",
                                          VNum (p + (r + 5)))]] |}];
         updater_calls := c; now := Nat.max t due0;
         timers := [{| due := Nat.max t due0 + 300;
                       callback := progress_tick (p + (r + 5)) |}];
         draws := S d |}.
Proof.
  intros r. unfold fire_next. simpl. run_handler. fold r.
  destruct (100 <=? p + (r + 5))%Z eqn:Hcap; simpl; [done|].
  by rewrite Hcap.
Qed.

(** Left alone, the progress interval reaches 100 within [k] firings when
    [100 <= p + 5 * k]: every firing adds at least 5. *)
Lemma progress_runs_to_completion k : forall e w s c t d due0 p,
  (0 <= p < 100)%Z ->
  (100 <= p + 5 * Z.of_nat k)%Z ->
  let final :=
    run_timers k
      {| app := e; mainWindow := Some w; sent := s;
         updater_calls := c; now := t;
         timers := [{| due := due0; callback := progress_tick p |}];
         draws := d |} in
  exists samples : list Z,
    sent final
    = s ++ map (fun pct => {| channel := "download-progress";
                              args := [VObj [("percent", VNum pct)]] |})
               samples
        ++ [{| channel := "update-downloaded";
               args := [VObj [("version",
                               VStr (getVersion e +:+ "-dev"))]] |}]
    /\ samples <> []
    /\ Forall (fun x => (p < x)%Z) samples
    /\ StronglySorted Z.le samples
    /\ last samples = Some 100%Z
    /\ timers final = [].
Proof.
  induction k as [|k IH]; intros e w s c t d due0 p Hp Hk; [lia|].
  simpl. rewrite fire_next_progress.
  set (r := Z.of_nat (entropy e d mod 20)).
  assert (Hr : (0 <= r)%Z) by (unfold r; lia).
  destruct (Z.leb_spec 100 (p + (r + 5))) as [Hcap|Hcap].
  - rewrite run_timers_idle by done. exists [100%Z]. simpl.
    rewrite <- app_assoc. repeat split; try done.
    + constructor; [lia|constructor].
    + repeat constructor.
  - destruct (IH e w
                (s ++ [{| channel := "download-progress";
                          args := [VObj [("percent",
                                          VNum (p + (r + 5)))]] |}])
                c (Nat.max t due0) (S d) (Nat.max t due0 + 300)
                (p + (r + 5))%Z)
      as (samples & Hsent & Hne & Hgt & Hsorted & Hlast & Htimers);
      [lia|lia|].
    exists ((p + (r + 5))%Z :: samples).
    repeat split; try done.
    + rewrite Hsent. simpl. by rewrite <- app_assoc.
    + constructor; [lia|].
      eapply Forall_impl; [exact Hgt|]. simpl. lia.
    + constructor; [done|].
      eapply Forall_impl; [exact Hgt|]. simpl. lia.
    + rewrite last_cons, Hlast. done.
Qed.

(** The two requests and the answer of the simulated check, on a state
    written out. *)
Lemma dev_check_state e w s c t ts d lib :
  isPackaged e = false ->
  after (Dev.update_check lib)
    {| app := e; mainWindow := Some w; sent := s; updater_calls := c;
       now := t; timers := ts; draws := d |}
  = {| app := e; mainWindow := Some w;
       sent := s ++ [{| channel := "checking-for-update"; args := [] |}];
       updater_calls := c; now := t;
       timers := ts ++ [{| due := t + 800; callback := announce_available |}];
       draws := d |}.
Proof. intros H. run_handler. by rewrite H. Qed.

Lemma dev_download_state e w s c t ts d lib :
  isPackaged e = false ->
  after (Dev.update_download lib)
    {| app := e; mainWindow := Some w; sent := s; updater_calls := c;
       now := t; timers := ts; draws := d |}
  = {| app := e; mainWindow := Some w; sent := s; updater_calls := c;
       now := t;
       timers := ts ++ [{| due := t + 300; callback := progress_tick 0 |}];
       draws := d |}.
Proof. intros H. run_handler. by rewrite H. Qed.

Lemma fire_next_announce e w s c t d due0 :
  fire_next {| app := e; mainWindow := Some w; sent := s;
               updater_calls := c; now := t;
               timers := [{| due := due0; callback := announce_available |}];
               draws := d |}
  = {| app := e; mainWindow := Some w;
       sent := s ++ [{| channel := "update-available";
                        args := [VObj [("version",
                                        VStr (getVersion e +:+ "-dev"));
                                       ("releaseName",
                                        VStr ("dev-simulated-"
                                              +:+ getVersion e))]] |}];
       updater_calls := c; now := Nat.max t due0; timers := []; draws := d |}.
Proof. done. Qed.

(** C6, as stated, fails when the download is requested before the
    simulated answer of the check has arrived: the first progress samples
    overtake [update-available]. *)
Lemma dev_flow_counterexample :
  let st := Samples.ready Samples.dev_env in
  map channel
    (sent (run_timers 4
             (after (Dev.update_download (Normal VNull))
                (after (Dev.update_check (Normal VNull)) st))))
  = [ "checking-for-update"; "download-progress"; "download-progress";
      "update-available"; "download-progress" ].
Proof. done. Qed.

(** C6, amended: in dev mode, with the main window open and no timer
    pending, a check followed by a download that is requested after the
    simulated answer of the check was delivered sends exactly:
    [checking-for-update]; [update-available] with the version followed by
    ["-dev"]; one or more [download-progress] samples, non-decreasing and
    ending at 100; [update-downloaded] with the version followed by
    ["-dev"].  Twenty firings of the interval are enough, and no timer
    stays armed. *)
Theorem dev_check_then_download
    (st : state) (w : BrowserWindow) (lib1 lib2 : completion value)
    (n k : nat) :
  isPackaged (app st) = false ->
  mainWindow st = Some w ->
  timers st = [] ->
  1 <= n ->
  20 <= k ->
  let final :=
    run_timers k
      (after (Dev.update_download lib2)
         (run_timers n (after (Dev.update_check lib1) st))) in
  exists samples : list Z,
    sent final
    = sent st
      ++ [ {| channel := "checking-for-update"; args := [] |};
           {| channel := "update-available";
              args := [VObj [("version",
                              VStr (getVersion (app st) +:+ "-dev"));
                             ("releaseName",
                              VStr ("dev-simulated-"
                                    +:+ getVersion (app st)))]] |} ]
      ++ map (fun pct => {| channel := "download-progress";
                            args := [VObj [("percent", VNum pct)]] |})
             samples
      ++ [ {| channel := "update-downloaded";
              args := [VObj [("version",
                              VStr (getVersion (app st) +:+ "-dev"))]] |} ]
    /\ samples <> []
    /\ StronglySorted Z.le samples
    /\ last samples = Some 100%Z
    /\ timers final = [].
Proof.
  intros Hdev Hwin Hidle Hn Hk final.
  destruct st as [[pk v f] mw s c t ts d]. simpl in *. subst.
  destruct n as [|n]; [lia|].
  unfold final.
  change (run_timers (S n)) with (fun x => run_timers n (fire_next x)).
  cbv beta.
  rewrite dev_check_state by done. rewrite app_nil_l.
  rewrite fire_next_announce, (run_timers_idle n) by done.
  rewrite dev_download_state by done. rewrite app_nil_l.
  match goal with
  | |- context [run_timers k {| sent := ?s1; now := ?t1;
                                timers := [{| due := ?d1 |}] |}] =>
      destruct (progress_runs_to_completion k
                  {| isPackaged := false; getVersion := v; entropy := f |}
                  w s1 c t1 d d1 0%Z)
        as (samples & Hsent & Hne & _ & Hsorted & Hlast & Htimers);
      [lia|lia|]
  end.
  exists samples. simpl in *. rewrite Hsent.
  split; [by rewrite <- !app_assoc|]. by repeat split.
Qed.

Lemma dev_check_then_download_witness :
  let st := Samples.ready Samples.dev_env in
  let final :=
    run_timers 20
      (after (Dev.update_download (Normal VNull))
         (run_timers 1 (after (Dev.update_check (Normal VNull)) st))) in
  exists samples : list Z,
    sent final
    = sent st
      ++ [ {| channel := "checking-for-update"; args := [] |};
           {| channel := "update-available";
              args := [VObj [("version",
                              VStr (getVersion (app st) +:+ "-dev"));
                             ("releaseName",
                              VStr ("dev-simulated-"
                                    +:+ getVersion (app st)))]] |} ]
      ++ map (fun pct => {| channel := "download-progress";
                            args := [VObj [("percent", VNum pct)]] |})
             samples
      ++ [ {| channel := "update-downloaded";
              args := [VObj [("version",
                              VStr (getVersion (app st) +:+ "-dev"))]] |} ]
    /\ samples <> []
    /\ StronglySorted Z.le samples
    /\ last samples = Some 100%Z
    /\ timers final = [].
Proof.
  intros st.
  apply (dev_check_then_download st 1 (Normal VNull) (Normal VNull) 1 20).
  - reflexivity.
  - reflexivity.
  - reflexivity.
  - lia.
  - lia.
Defined.

End Privileged.

(** ** The presenter *)

Section Presenter.
Import Renderer.

(** C9: in every state of the component, hence in every reachable one, the
    Download button is rendered exactly when [updateAvailable] is true and
    [downloaded] is false, the Install and Relaunch button exactly when
    [downloaded] is true, and the Check button is always rendered and is
    disabled exactly when [checking] is true.  This holds for both versions
    of the component. *)
Theorem render_rule (s : state) :
  let download :=
    if updateAvailable s && negb (downloaded s)
    then [{| calls := startDownload; label := "Download";
             is_disabled := false |}]
    else [] in
  let install :=
    if downloaded s
    then [{| calls := installAndRelaunch; label := "Install and Relaunch";
             is_disabled := false |}]
    else [] in
  let check :=
    [{| calls := startCheck;
        label := if checking s then "Checking..." else "Check for updates";
        is_disabled := checking s |}] in
  (actions_for startDownload (Versions s) = download
   /\ actions_for installAndRelaunch (Versions s) = install
   /\ actions_for startCheck (Versions s) = check)
  /\ (actions_for startDownload (Versions_debug s) = download
      /\ actions_for installAndRelaunch (Versions_debug s) = install
      /\ actions_for startCheck (Versions_debug s) = check).
Proof.
  destruct s as [vs av avail ua progress dl ck msg].
  destruct ua, dl, ck, progress, msg as [[|? ?]|]; repeat split; reflexivity.
Qed.

End Presenter.

(** ** The bridge: subscriptions and what they deliver *)

Section Subscriptions.
Import Preload.

Lemma filter_none {A} (P : A -> Prop) `{forall x, Decision (P x)}
    (l : list A) :
  (forall x, x ∈ l -> ~ P x) -> filter P l = [].
Proof.
  induction l as [|x l IH]; intros Hl; [done|].
  rewrite filter_cons_False by (apply Hl; left).
  apply IH. intros y Hy. apply Hl. by right.
Qed.

(** A message on one channel leaves the other channels alone, so it
    commutes with the clearing of another channel. *)
Lemma emit_delete_ne channel cleared data (r : registry) :
  channel <> cleared ->
  emit channel data (delete cleared r)
  = ((emit channel data r).1, delete cleared (emit channel data r).2).
Proof.
  intros Hne. unfold emit. rewrite lookup_delete_ne by done.
  destruct (r !! channel) as [regs|]; simpl; [|done].
  f_equal.
  destruct (filter (fun g => once_only g = false) regs) as [|g keep].
  - apply delete_delete.
  - by rewrite delete_insert_ne.
Qed.

Lemma emit_delete_eq channel data (r : registry) :
  emit channel data (delete channel r) = ([], delete channel r).
Proof. unfold emit. by rewrite lookup_delete_eq. Qed.

(** X1: after [removeAllListeners(channel)], the messages on that channel
    call nobody, and every other message calls exactly whom it would have
    called: the calls are those of the traffic with that channel taken
    out. *)
Theorem removeAllListeners_silences_channel
    (channel : string) (traffic : list (string * value)) (r : registry) :
  deliver traffic (updates_removeAllListeners channel r)
  = deliver (filter (fun m => m.1 <> channel) traffic) r.
Proof.
  unfold updates_removeAllListeners, ipcRenderer_removeAllListeners.
  revert r. induction traffic as [|[c d] rest IH]; intros r; [done|].
  destruct (decide (c = channel)) as [->|Hne].
  - rewrite filter_cons_False by (simpl; intros H; by apply H). simpl.
    rewrite emit_delete_eq. simpl. apply IH.
  - rewrite filter_cons_True by (simpl; done). simpl.
    rewrite emit_delete_ne by done.
    destruct (emit c d r) as [calls r']. simpl. by rewrite IH.
Qed.

(** The calls made to one listener. *)
Lemma calls_of_registrations l data (regs : list registration) :
  filter (fun c : listener * value => c.1 = l)
         (map (fun g => (target g, data)) regs)
  = map (fun g => (target g, data)) (filter (fun g => target g = l) regs).
Proof.
  induction regs as [|g regs IH]; [done|]. simpl.
  rewrite !filter_cons. simpl.
  destruct (decide (target g = l)); simpl; by rewrite IH.
Qed.

Lemma sole_registration_intro l channel g (r : registry) :
  unregistered l r -> target g = l ->
  sole_registration l channel g
    (<[channel := default [] (r !! channel) ++ [g]]> r).
Proof.
  intros Hl Hg. split.
  - eexists. split; [apply lookup_insert_eq|].
    rewrite filter_app, filter_cons_True, filter_nil by done.
    replace (filter (fun g => target g = l) (default [] (r !! channel)))
      with (@nil registration); [done|].
    symmetry. apply filter_none.
    intros g' Hin. destruct (r !! channel) as [regs|] eqn:Hr; simpl in Hin.
    + by eapply Hl.
    + by apply not_elem_of_nil in Hin.
  - intros c regs g' Hc Hlook Hin.
    rewrite lookup_insert_ne in Hlook by done. by eapply Hl.
Qed.

(** A message on another channel does not call [l] and keeps its
    registration. *)
Lemma emit_elsewhere l channel g c data (r : registry) :
  sole_registration l channel g r -> c <> channel ->
  filter (fun k : listener * value => k.1 = l) (emit c data r).1 = []
  /\ sole_registration l channel g (emit c data r).2.
Proof.
  intros [(regs & Hregs & Hone) Hother] Hne. unfold emit.
  destruct (r !! c) as [regs'|] eqn:Hc; simpl.
  - split.
    + rewrite calls_of_registrations.
      replace (filter (fun g => target g = l) regs')
        with (@nil registration); [done|].
      symmetry. apply filter_none.
      intros g' Hin. by eapply Hother.
    + assert (Hsub : forall g',
                 g' ∈ filter (fun g => once_only g = false) regs' ->
                 g' ∈ regs').
      { intros g' Hg'. by apply list_elem_of_filter in Hg' as [_ ?]. }
      destruct (filter (fun g => once_only g = false) regs') as [|g0 keep].
      * split.
        -- exists regs. by rewrite lookup_delete_ne.
        -- intros c' regs'' g' Hc' Hlook Hin.
           destruct (decide (c = c')) as [->|Hcc].
           ++ by rewrite lookup_delete_eq in Hlook.
           ++ rewrite lookup_delete_ne in Hlook by done. by eapply Hother.
      * split.
        -- exists regs. by rewrite lookup_insert_ne.
        -- intros c' regs'' g' Hc' Hlook Hin.
           destruct (decide (c = c')) as [->|Hcc].
           ++ rewrite lookup_insert_eq in Hlook. injection Hlook as <-.
              eapply Hother; [exact Hc'|exact Hc|]. by apply Hsub.
           ++ rewrite lookup_insert_ne in Hlook by done. by eapply Hother.
  - split; [done|]. by split; [exists regs|].
Qed.

(** A message on the channel of [l] calls it once; a registration made with
    [on] stays, one made with [once] is gone afterwards. *)
Lemma emit_here_calls l channel g data (r : registry) :
  sole_registration l channel g r -> target g = l ->
  filter (fun k : listener * value => k.1 = l) (emit channel data r).1
  = [(l, data)].
Proof.
  intros [(regs & Hregs & Hone) _] Hg. unfold emit. rewrite Hregs. simpl.
  by rewrite calls_of_registrations, Hone, <- Hg.
Qed.

Lemma emit_here_stays l channel g data (r : registry) :
  sole_registration l channel g r -> once_only g = false ->
  sole_registration l channel g (emit channel data r).2.
Proof.
  intros [(regs & Hregs & Hone) Hother] Hg. unfold emit. rewrite Hregs. simpl.
  assert (Hkeep : filter (fun g => target g = l)
                    (filter (fun g => once_only g = false) regs) = [g]).
  { rewrite list_filter_filter.
    rewrite (list_filter_iff _ (fun a => once_only a = false /\ target a = l))
      by tauto.
    rewrite <- list_filter_filter, Hone. by rewrite filter_cons_True. }
  destruct (filter (fun g => once_only g = false) regs) as [|g0 keep];
    [discriminate|].
  split.
  - eexists. split; [apply lookup_insert_eq|done].
  - intros c regs' g' Hc Hlook Hin.
    rewrite lookup_insert_ne in Hlook by done. by eapply Hother.
Qed.

Lemma emit_here_leaves l channel g data (r : registry) :
  sole_registration l channel g r -> once_only g = true ->
  unregistered l (emit channel data r).2.
Proof.
  intros [(regs & Hregs & Hone) Hother] Hg. unfold emit. rewrite Hregs. simpl.
  assert (Hgone : forall g',
             g' ∈ filter (fun g => once_only g = false) regs ->
             target g' <> l).
  { intros g' Hin Ht. apply list_elem_of_filter in Hin as [Hon Hin].
    assert (Hin' : g' ∈ filter (fun g => target g = l) regs)
      by (by apply list_elem_of_filter).
    rewrite Hone in Hin'. apply list_elem_of_singleton in Hin' as ->.
    congruence. }
  destruct (filter (fun g => once_only g = false) regs) as [|g0 keep].
  - intros c regs' g' Hlook Hin.
    destruct (decide (channel = c)) as [->|Hne].
    + by rewrite lookup_delete_eq in Hlook.
    + rewrite lookup_delete_ne in Hlook by done. by eapply Hother.
  - intros c regs' g' Hlook Hin.
    destruct (decide (channel = c)) as [->|Hne].
    + rewrite lookup_insert_eq in Hlook. injection Hlook as <-.
      by apply Hgone.
    + rewrite lookup_insert_ne in Hlook by done. by eapply Hother.
Qed.

Lemma deliver_persistent l channel g traffic : forall r : registry,
  sole_registration l channel g r -> target g = l -> once_only g = false ->
  filter (fun k : listener * value => k.1 = l) (deliver traffic r)
  = map (fun m => (l, m.2)) (filter (fun m => m.1 = channel) traffic).
Proof.
  induction traffic as [|[c d] rest IH]; intros r Hsole Ht Ho; [done|].
  simpl deliver.
  destruct (decide (c = channel)) as [->|Hne].
  - pose proof (emit_here_calls l channel g d r Hsole Ht) as Hcalls.
    pose proof (emit_here_stays l channel g d r Hsole Ho) as Hstays.
    destruct (emit channel d r) as [calls r']. simpl in *.
    rewrite filter_app, Hcalls, filter_cons_True by done.
    simpl. f_equal. by apply IH.
  - destruct (emit_elsewhere l channel g c d r Hsole Hne) as [Hcalls Hstays].
    destruct (emit c d r) as [calls r']. simpl in *.
    rewrite filter_app, Hcalls, filter_cons_False by done.
    by apply IH.
Qed.

Lemma deliver_single l channel g traffic : forall r : registry,
  sole_registration l channel g r -> target g = l -> once_only g = true ->
  filter (fun k : listener * value => k.1 = l) (deliver traffic r)
  = map (fun m => (l, m.2)) (take 1 (filter (fun m => m.1 = channel) traffic)).
Proof.
  induction traffic as [|[c d] rest IH]; intros r Hsole Ht Ho; [done|].
  simpl deliver.
  destruct (decide (c = channel)) as [->|Hne].
  - pose proof (emit_here_calls l channel g d r Hsole Ht) as Hcalls.
    pose proof (emit_here_leaves l channel g d r Hsole Ho) as Hleaves.
    destruct (emit channel d r) as [calls r']. simpl in *.
    rewrite filter_app, Hcalls, filter_cons_True by done.
    simpl. f_equal.
    apply filter_none. intros k Hk.
    pose proof (deliver_unregistered l rest r' Hleaves) as Hall.
    rewrite Forall_forall in Hall. by apply Hall.
  - destruct (emit_elsewhere l channel g c d r Hsole Hne) as [Hcalls Hstays].
    destruct (emit c d r) as [calls r']. simpl in *.
    rewrite filter_app, Hcalls, filter_cons_False by done.
    by apply IH.
Qed.

(** X2: a listener subscribed with [on] to a channel of the allow-list is
    called once for every message on that channel, with the data of the
    message and in the order of arrival, and for no other message, whatever
    else is registered (the listener itself being registered nowhere
    before). *)
Theorem on_listed_hears_every_message
    (channel : string) (l : listener) (r : registry)
    (traffic : list (string * value)) :
  includes validChannels channel = true ->
  unregistered l r ->
  filter (fun k : listener * value => k.1 = l)
         (deliver traffic (updates_on channel l r))
  = map (fun m => (l, m.2)) (filter (fun m => m.1 = channel) traffic).
Proof.
  intros Hch Hl. unfold updates_on, ipcRenderer_on. rewrite Hch.
  apply (deliver_persistent l channel {| target := l; once_only := false |});
    [|reflexivity|reflexivity].
  by apply sole_registration_intro.
Qed.

Lemma on_listed_hears_every_message_witness :
  let traffic := [("update-available", VStr "a"); ("update-error", VNull);
                  ("update-available", VStr "b")] in
  filter (fun k : listener * value => k.1 = 3)
         (deliver traffic (updates_on "update-available" 3 ∅))
  = map (fun m => (3, m.2))
        (filter (fun m => m.1 = "update-available") traffic).
Proof.
  intros traffic.
  apply (on_listed_hears_every_message "update-available" 3 ∅ traffic).
  - reflexivity.
  - intros c regs g Hc. by rewrite lookup_empty in Hc.
Defined.

(** X3: a listener subscribed with [once] to a channel of the allow-list is
    called for the first message on that channel only, with its data. *)
Theorem once_listed_hears_first_message_only
    (channel : string) (l : listener) (r : registry)
    (traffic : list (string * value)) :
  includes validChannels channel = true ->
  unregistered l r ->
  filter (fun k : listener * value => k.1 = l)
         (deliver traffic (updates_once channel l r))
  = map (fun m => (l, m.2))
        (take 1 (filter (fun m => m.1 = channel) traffic)).
Proof.
  intros Hch Hl. unfold updates_once, ipcRenderer_once. rewrite Hch.
  apply (deliver_single l channel {| target := l; once_only := true |});
    [|reflexivity|reflexivity].
  by apply sole_registration_intro.
Qed.

Lemma once_listed_hears_first_message_only_witness :
  let traffic := [("update-error", VNull); ("update-available", VStr "a");
                  ("update-available", VStr "b")] in
  filter (fun k : listener * value => k.1 = 3)
         (deliver traffic (updates_once "update-available" 3 ∅))
  = map (fun m => (3, m.2))
        (take 1 (filter (fun m => m.1 = "update-available") traffic)).
Proof.
  intros traffic.
  apply (once_listed_hears_first_message_only "update-available" 3 ∅ traffic).
  - reflexivity.
  - intros c regs g Hc. by rewrite lookup_empty in Hc.
Defined.

End Subscriptions.

(** ** The main process over whole runs *)

Section Runs.
Import Main Loop.

Ltac unfold_main :=
  cbv [after result
       Plain.update_check Plain.update_download Plain.update_install
       Dev.update_check Dev.update_download Dev.update_install
       Dev.run_callback on_updater_event
       try_catch eval autoUpdater send arm random20 app_isPackaged
       app_getVersion
       mbind M_bind mret M_ret negb fst snd
       set_sent set_updater_calls set_clock set_draws set_mainWindow
       app mainWindow sent updater_calls now timers draws].

(** *** The timers *)

Lemma next_timer_None ts : next_timer ts = None -> ts = [].
Proof.
  destruct ts as [|t rest]; [done|]. simpl.
  destruct (next_timer rest) as [[u rest']|]; [|done].
  by destruct (due t <=? due u)%nat.
Qed.

(** The timer that fires is one of the armed ones, and the others stay. *)
Lemma next_timer_perm ts : forall t rest,
  next_timer ts = Some (t, rest) -> ts ≡ₚ t :: rest.
Proof.
  induction ts as [|a ts IH]; intros t rest H; [done|]. simpl in H.
  destruct (next_timer ts) as [[u rest']|] eqn:Hnext.
  - destruct (due a <=? due u)%nat; injection H as <- <-; [done|].
    rewrite (IH u rest') by done. apply Permutation_swap.
  - apply next_timer_None in Hnext as ->. by injection H as <- <-.
Qed.

Lemma budget_perm ts ts' : ts ≡ₚ ts' -> budget ts = budget ts'.
Proof. induction 1; simpl in *; lia. Qed.

Lemma budget_app ts ts' : budget (ts ++ ts') = budget ts + budget ts'.
Proof. induction ts as [|t ts IH]; simpl; lia. Qed.

Lemma budget_zero ts : budget ts = 0 -> ts = [].
Proof.
  destruct ts as [|[d [|p]] ts]; [done| |]; unfold budget; simpl;
    unfold firings_left; simpl; lia.
Qed.

Lemma downloads_pending_perm ts ts' :
  ts ≡ₚ ts' -> downloads_pending ts = downloads_pending ts'.
Proof. intros H. unfold downloads_pending. by rewrite H. Qed.

Lemma checks_pending_perm ts ts' :
  ts ≡ₚ ts' -> checks_pending ts = checks_pending ts'.
Proof. intros H. unfold checks_pending. by rewrite H. Qed.

Lemma downloads_pending_cons t ts :
  downloads_pending (t :: ts)
  = (if is_progress t then 1 else 0) + downloads_pending ts.
Proof.
  unfold downloads_pending. rewrite filter_cons.
  destruct (is_progress t); by case_decide.
Qed.

Lemma checks_pending_cons t ts :
  checks_pending (t :: ts)
  = (if is_progress t then 0 else 1) + checks_pending ts.
Proof.
  unfold checks_pending. rewrite filter_cons.
  destruct (is_progress t); by case_decide.
Qed.

Lemma downloads_pending_app ts ts' :
  downloads_pending (ts ++ ts') = downloads_pending ts + downloads_pending ts'.
Proof. unfold downloads_pending. by rewrite filter_app, length_app. Qed.

Lemma checks_pending_app ts ts' :
  checks_pending (ts ++ ts') = checks_pending ts + checks_pending ts'.
Proof. unfold checks_pending. by rewrite filter_app, length_app. Qed.

(** An interval that fires without reaching 100 needs fewer firings
    afterwards. *)
Lemma firings_decrease (p q : Z) :
  (p + 5 <= q < 100)%Z ->
  Z.to_nat ((99 - q) `div` 5) < Z.to_nat ((99 - p) `div` 5).
Proof.
  intros H.
  pose proof (Z.div_mod (99 - q) 5 ltac:(lia)).
  pose proof (Z.div_mod (99 - p) 5 ltac:(lia)).
  pose proof (Z.mod_pos_bound (99 - q) 5 ltac:(lia)).
  pose proof (Z.mod_pos_bound (99 - p) 5 ltac:(lia)).
  lia.
Qed.

(** One firing: the budget goes down, the window stays, and what was sent
    on [update-downloaded] and [update-available] plus what is still pending
    stays the same. *)
Lemma fire_next_step st :
  timers st <> [] ->
  budget (timers (fire_next st)) < budget (timers st)
  /\ mainWindow (fire_next st) = mainWindow st
  /\ length (sent_on "update-downloaded" (fire_next st))
     + with_window st (downloads_pending (timers (fire_next st)))
     = length (sent_on "update-downloaded" st)
       + with_window st (downloads_pending (timers st))
  /\ length (sent_on "update-available" (fire_next st))
     + with_window st (checks_pending (timers (fire_next st)))
     = length (sent_on "update-available" st)
       + with_window st (checks_pending (timers st)).
Proof.
  intros Hts. unfold with_window, fire_next.
  destruct (next_timer (timers st)) as [[t rest]|] eqn:Hnext;
    [|by apply next_timer_None in Hnext].
  apply next_timer_perm in Hnext.
  rewrite (budget_perm _ _ Hnext), (downloads_pending_perm _ _ Hnext),
    (checks_pending_perm _ _ Hnext).
  clear Hnext Hts.
  rewrite downloads_pending_cons, checks_pending_cons.
  destruct st as [e w s c t0 ts d], t as [due0 [|p]]; simpl.
  - unfold_main.
    destruct w; unfold sent_on; simpl;
      rewrite ?filter_app, ?length_app; simpl; repeat split; lia.
  - unfold_main.
    set (r := Z.of_nat (entropy e d mod 20)).
    assert (Hr : (0 <= r)%Z) by (unfold r; lia).
    destruct (Z.leb_spec 100 (p + (r + 5))) as [Hcap|Hcap]; simpl.
    + destruct w; unfold sent_on, firings_left; simpl;
        rewrite ?filter_app, ?length_app; simpl; repeat split; lia.
    + destruct (Z.leb_spec 100 (p + (r + 5))) as [?|_]; [lia|].
      destruct w; unfold sent_on; simpl;
        rewrite ?budget_app, ?downloads_pending_app, ?checks_pending_app,
          ?downloads_pending_cons, ?checks_pending_cons,
          ?filter_app, ?length_app; simpl;
        change (downloads_pending []) with 0;
        change (checks_pending []) with 0;
        unfold firings_left; simpl;
        pose proof (firings_decrease p (p + (r + 5)) ltac:(lia));
        repeat split; lia.
Qed.

(** X4: the simulation always comes to rest.  Whatever timers are armed,
    after as many firings as their budget (at most 20 per simulated download
    and one per simulated check) none is armed any more; by then every
    pending download has sent exactly one [update-downloaded] and every
    pending check exactly one [update-available], if the window exists, and
    nothing if it does not. *)
Theorem simulation_comes_to_rest (st : state) (n : nat) :
  budget (timers st) <= n ->
  timers (run_timers n st) = []
  /\ length (sent_on "update-downloaded" (run_timers n st))
     = length (sent_on "update-downloaded" st)
       + with_window st (downloads_pending (timers st))
  /\ length (sent_on "update-available" (run_timers n st))
     = length (sent_on "update-available" st)
       + with_window st (checks_pending (timers st)).
Proof.
  revert st. induction n as [|n IH]; intros st Hn.
  - assert (Hts : timers st = []) by (apply budget_zero; lia).
    simpl. rewrite Hts. unfold with_window.
    destruct (mainWindow st); repeat split; try done; simpl; lia.
  - destruct (decide (timers st = [])) as [Hts|Hts].
    + rewrite run_timers_idle by done. rewrite Hts. unfold with_window.
      destruct (mainWindow st); repeat split; try done; simpl; lia.
    + destruct (fire_next_step st Hts) as (Hb & Hw & Hd & Ha).
      destruct (IH (fire_next st)) as (Ht' & Hd' & Ha'); [lia|].
      simpl. unfold with_window in *. rewrite Hw in *.
      repeat split; [done|lia|lia].
Qed.

Lemma simulation_comes_to_rest_witness :
  let st :=
    after (Dev.update_download (Normal VNull))
      (after (Dev.update_check (Normal VNull))
         (after (Dev.update_download (Normal VNull))
            (Samples.ready Samples.dev_env))) in
  timers (run_timers 41 st) = []
  /\ length (sent_on "update-downloaded" (run_timers 41 st))
     = length (sent_on "update-downloaded" st)
       + with_window st (downloads_pending (timers st))
  /\ length (sent_on "update-available" (run_timers 41 st))
     = length (sent_on "update-available" st)
       + with_window st (checks_pending (timers st)).
Proof.
  intros st. apply (simulation_comes_to_rest st 41).
  vm_compute. lia.
Defined.

(** The samples of one interval left alone: they rise by at least 5 and at
    most 24 a time, up to 100. *)
Lemma progress_samples_shape k : forall e w s c t d due0 p,
  (0 <= p < 100)%Z ->
  (100 <= p + 5 * Z.of_nat k)%Z ->
  exists samples : list Z,
    sent (run_timers k
            {| app := e; mainWindow := Some w; sent := s;
               updater_calls := c; now := t;
               timers := [{| due := due0; callback := progress_tick p |}];
               draws := d |})
    = s ++ map (fun pct => {| channel := "download-progress";
                              args := [VObj [("percent", VNum pct)]] |})
               samples
        ++ [{| channel := "update-downloaded";
               args := [VObj [("version",
                               VStr (getVersion e +:+ "-dev"))]] |}]
    /\ Forall (fun x => (Z.min (p + 5) 100 <= x <= 100)%Z) samples
    /\ StronglySorted Z.lt samples
    /\ last samples = Some 100%Z
    /\ (100 - p <= 24 * Z.of_nat (length samples))%Z
    /\ (5 * Z.of_nat (length samples) <= 104 - p)%Z.
Proof.
  induction k as [|k IH]; intros e w s c t d due0 p Hp Hk; [lia|].
  simpl. rewrite fire_next_progress.
  set (r := Z.of_nat (entropy e d mod 20)).
  assert (Hr : (0 <= r <= 19)%Z).
  { pose proof (Nat.mod_upper_bound (entropy e d) 20). unfold r. lia. }
  destruct (Z.leb_spec 100 (p + (r + 5))) as [Hcap|Hcap].
  - rewrite run_timers_idle by done. exists [100%Z]. simpl.
    rewrite <- app_assoc. repeat split; try done; try lia.
    + constructor; [lia|constructor].
    + repeat constructor.
  - destruct (IH e w
                (s ++ [{| channel := "download-progress";
                          args := [VObj [("percent",
                                          VNum (p + (r + 5)))]] |}])
                c (Nat.max t due0) (S d) (Nat.max t due0 + 300)
                (p + (r + 5))%Z)
      as (samples & Hsent & Hin & Hsorted & Hlast & Hlow & Hup);
      [lia|lia|].
    exists ((p + (r + 5))%Z :: samples).
    repeat split.
    + rewrite Hsent. simpl. by rewrite <- app_assoc.
    + constructor; [lia|].
      eapply Forall_impl; [exact Hin|]. simpl. lia.
    + constructor; [done|].
      eapply Forall_impl; [exact Hin|]. simpl. lia.
    + rewrite last_cons, Hlast. done.
    + simpl length. lia.
    + simpl length. lia.
Qed.

(** X5: a simulated download on its own (dev mode, window open, no timer
    pending; no check is needed before) sends between 5 and 20 progress
    samples, strictly increasing, each between 5 and 100, the last one 100,
    and then one [update-downloaded]. *)
Theorem simulated_download_samples
    (st : state) (w : BrowserWindow) (lib : completion value) (k : nat) :
  isPackaged (app st) = false ->
  mainWindow st = Some w ->
  timers st = [] ->
  20 <= k ->
  exists samples : list Z,
    sent (run_timers k (after (Dev.update_download lib) st))
    = sent st
      ++ map (fun pct => {| channel := "download-progress";
                            args := [VObj [("percent", VNum pct)]] |})
             samples
      ++ [ {| channel := "update-downloaded";
              args := [VObj [("version",
                              VStr (getVersion (app st) +:+ "-dev"))]] |} ]
    /\ 5 <= length samples <= 20
    /\ StronglySorted Z.lt samples
    /\ Forall (fun x => (5 <= x <= 100)%Z) samples
    /\ last samples = Some 100%Z.
Proof.
  intros Hdev Hwin Hidle Hk.
  destruct st as [[pk v f] mw s c t ts d]. simpl in *. subst.
  rewrite dev_download_state by done. rewrite app_nil_l.
  destruct (progress_samples_shape k
              {| isPackaged := false; getVersion := v; entropy := f |}
              w s c t d (t + 300) 0%Z)
    as (samples & Hsent & Hin & Hsorted & Hlast & Hlow & Hup); [lia|lia|].
  exists samples. simpl in *.
  repeat split; try done; lia.
Qed.

Lemma simulated_download_samples_witness :
  let st := Samples.ready Samples.dev_env in
  exists samples : list Z,
    sent (run_timers 20 (after (Dev.update_download (Normal VNull)) st))
    = sent st
      ++ map (fun pct => {| channel := "download-progress";
                            args := [VObj [("percent", VNum pct)]] |})
             samples
      ++ [ {| channel := "update-downloaded";
              args := [VObj [("version",
                              VStr (getVersion (app st) +:+ "-dev"))]] |} ]
    /\ 5 <= length samples <= 20
    /\ StronglySorted Z.lt samples
    /\ Forall (fun x => (5 <= x <= 100)%Z) samples
    /\ last samples = Some 100%Z.
Proof.
  intros st.
  apply (simulated_download_samples st 1 (Normal VNull) 20).
  - reflexivity.
  - reflexivity.
  - reflexivity.
  - lia.
Defined.

(** *** Whole runs *)

(** A handler, whatever the library does, comes down to one of a few
    cases: unfold it and take them one by one. *)
Ltac by_cases lib st :=
  unfold_main; unfold read_message;
  destruct st as [[[] ?] [?|] ? ? ? ? ?];
  destruct lib as [?|thrown]; simpl; try done;
  destruct (nullish thrown); simpl; rewrite ?app_nil_r; done.

(** No request, updater event or timer changes the environment or the
    [mainWindow] variable. *)
Lemma dev_act_frame a st :
  app (dev_act a st) = app st /\ mainWindow (dev_act a st) = mainWindow st.
Proof.
  destruct a as [[lib|lib|lib|ev]|]; simpl.
  - by_cases lib st.
  - by_cases lib st.
  - by_cases lib st.
  - destruct ev; unfold_main; by destruct st as [e [w|] s c t ts d].
  - unfold fire_next.
    destruct (next_timer (timers st)) as [[[due0 [|p]] rest]|]; [| |done].
    + unfold_main. by destruct st as [e [w|] s c t ts d].
    + unfold_main. destruct st as [e [w|] s c t ts d]; simpl;
        by destruct (100 <=? _)%Z eqn:Hcap; simpl; rewrite ?Hcap.
Qed.

Lemma plain_handle_frame o st :
  app (plain_handle o st) = app st
  /\ mainWindow (plain_handle o st) = mainWindow st.
Proof.
  destruct o as [lib|lib|lib|ev]; simpl.
  - by_cases lib st.
  - by_cases lib st.
  - by_cases lib st.
  - destruct ev; unfold_main; by destruct st as [e [w|] s c t ts d].
Qed.




Lemma dev_act_updater_calls a st :
  isPackaged (app st) = false ->
  updater_calls (dev_act a st)
  = updater_calls st ++ (if is_install a then [quitAndInstall] else []).
Proof.
  intros Hdev. destruct a as [[lib|lib|lib|ev]|]; simpl.
  - unfold_main. destruct st as [[pk v f] [w|] s c t ts d]; simpl in *;
      subst; destruct lib; simpl; by rewrite app_nil_r.
  - unfold_main. destruct st as [[pk v f] [w|] s c t ts d]; simpl in *;
      subst; destruct lib; simpl; by rewrite app_nil_r.
  - by_cases lib st.
  - destruct ev; unfold_main;
      destruct st as [e [w|] s c t ts d]; simpl; by rewrite app_nil_r.
  - unfold fire_next. rewrite app_nil_r.
    destruct (next_timer (timers st)) as [[[due0 [|p]] rest]|]; [| |done].
    + unfold_main. by destruct st as [e [w|] s c t ts d].
    + unfold_main. destruct st as [e [w|] s c t ts d]; simpl;
        by destruct (100 <=? _)%Z eqn:Hcap; simpl; rewrite ?Hcap.
Qed.

(** X7: in dev mode the simulation takes the place of the library for
    checks and downloads but not for the installation: over any run, the
    only method of [autoUpdater] ever called is [quitAndInstall], once per
    install request. *)
Theorem dev_mode_calls_only_quitAndInstall
    (acts : list activity) (st : state) :
  isPackaged (app st) = false ->
  updater_calls (dev_play acts st)
  = updater_calls st
    ++ replicate (length (filter (fun a => is_install a = true) acts))
                 quitAndInstall.
Proof.
  revert st. induction acts as [|a acts IH]; intros st Hdev.
  - simpl. by rewrite app_nil_r.
  - simpl. rewrite IH.
    + rewrite dev_act_updater_calls by done. rewrite filter_cons.
      destruct (is_install a); case_decide; try done; simpl.
      * by rewrite <- app_assoc.
      * by rewrite app_nil_r.
    + destruct (dev_act_frame a st) as [-> _]. done.
Qed.

Lemma dev_mode_calls_only_quitAndInstall_witness :
  let acts := [outside (invoked_check (Normal VNull)); timer_fires;
               outside (invoked_download (Normal VNull)); timer_fires;
               outside (invoked_install (Normal tt));
               outside (invoked_install (Throw (new_Error "busy")))] in
  let st := Samples.ready Samples.dev_env in
  updater_calls (dev_play acts st)
  = updater_calls st
    ++ replicate (length (filter (fun a => is_install a = true) acts))
                 quitAndInstall.
Proof.
  intros acts st.
  apply (dev_mode_calls_only_quitAndInstall acts st).
  reflexivity.
Defined.

(** In a packaged app each handler of the version with the simulation does
    what the handler of the other version does. *)
Lemma dev_handle_packaged o st :
  isPackaged (app st) = true ->
  dev_handle o st = plain_handle o st
  /\ app (plain_handle o st) = app st.
Proof.
  intros Hpk. split; [|by destruct (plain_handle_frame o st)].
  destruct o as [lib|lib|lib|ev]; simpl; [| | |done].
  - unfold_main. destruct st as [[pk v f] w s c t ts d]; simpl in *; by subst.
  - unfold_main. destruct st as [[pk v f] w s c t ts d]; simpl in *; by subst.
  - done.
Qed.

Lemma plain_handle_timers o st :
  timers (plain_handle o st) = timers st.
Proof.
  destruct o as [lib|lib|lib|ev]; simpl.
  - by_cases lib st.
  - by_cases lib st.
  - by_cases lib st.
  - destruct ev; unfold_main; by destruct st as [e [w|] s c t ts d].
Qed.

(** X8: in a packaged app the simulation is inert: over any history of
    requests and updater events the two versions of the main process reach
    the same state, and no timer is ever armed. *)
Theorem packaged_versions_agree (history : list occurrence) (st : state) :
  isPackaged (app st) = true ->
  dev_run history st = plain_run history st
  /\ timers (dev_run history st) = timers st.
Proof.
  unfold dev_run, plain_run.
  revert st. induction history as [|o history IH]; intros st Hpk; [done|].
  simpl.
  destruct (dev_handle_packaged o st Hpk) as [Heq Happ].
  rewrite Heq. destruct (IH (plain_handle o st)) as [-> ->]; [congruence|].
  split; [done|]. apply plain_handle_timers.
Qed.

Lemma packaged_versions_agree_witness :
  let history := [invoked_check (Throw (new_Error "offline"));
                  emitted (error (new_Error "offline"));
                  invoked_download (Normal VNull);
                  invoked_install (Normal tt)] in
  let st := Samples.ready Samples.packaged_env in
  dev_run history st = plain_run history st
  /\ timers (dev_run history st) = timers st.
Proof.
  intros history st.
  apply (packaged_versions_agree history st).
  reflexivity.
Defined.

End Runs.

(** ** The component over its life *)

Section Life.
Import Preload Renderer Component.

(** *** Mounting and cleaning up *)

Lemma mount_checking instance (r : registry) :
  mount instance r !! "checking-for-update"
  = Some (default [] (r !! "checking-for-update")
          ++ [{| target := listener_of instance on_checking;
                 once_only := false |}]).
Proof.
  unfold mount, updates_on, ipcRenderer_on.
  change (includes validChannels "update-error") with true.
  change (includes validChannels "update-downloaded") with true.
  change (includes validChannels "download-progress") with true.
  change (includes validChannels "update-not-available") with true.
  change (includes validChannels "update-available") with true.
  change (includes validChannels "checking-for-update") with true.
  cbv iota.
  do 5 (rewrite lookup_insert_ne by done).
  apply lookup_insert_eq.
Qed.

Lemma mount_available instance (r : registry) :
  mount instance r !! "update-available"
  = Some (default [] (r !! "update-available")
          ++ [{| target := listener_of instance on_available;
                 once_only := false |}]).
Proof.
  unfold mount, updates_on, ipcRenderer_on.
  change (includes validChannels "update-error") with true.
  change (includes validChannels "update-downloaded") with true.
  change (includes validChannels "download-progress") with true.
  change (includes validChannels "update-not-available") with true.
  change (includes validChannels "update-available") with true.
  change (includes validChannels "checking-for-update") with true.
  cbv iota.
  do 4 (rewrite lookup_insert_ne by done).
  rewrite lookup_insert_eq.
  by rewrite lookup_insert_ne.
Qed.

Lemma mount_not_available instance (r : registry) :
  mount instance r !! "update-not-available"
  = Some (default [] (r !! "update-not-available")
          ++ [{| target := listener_of instance on_not_available;
                 once_only := false |}]).
Proof.
  unfold mount, updates_on, ipcRenderer_on.
  change (includes validChannels "update-error") with true.
  change (includes validChannels "update-downloaded") with true.
  change (includes validChannels "download-progress") with true.
  change (includes validChannels "update-not-available") with true.
  change (includes validChannels "update-available") with true.
  change (includes validChannels "checking-for-update") with true.
  cbv iota.
  do 3 (rewrite lookup_insert_ne by done).
  rewrite lookup_insert_eq.
  by do 2 (rewrite lookup_insert_ne by done).
Qed.

Lemma cleanup_not_available (r : registry) :
  cleanup r !! "update-not-available" = r !! "update-not-available".
Proof.
  unfold cleanup, updates_removeAllListeners, ipcRenderer_removeAllListeners.
  by do 4 (rewrite lookup_delete_ne by done).
Qed.

Lemma cleanup_checking (r : registry) :
  cleanup r !! "checking-for-update" = r !! "checking-for-update".
Proof.
  unfold cleanup, updates_removeAllListeners, ipcRenderer_removeAllListeners.
  by do 4 (rewrite lookup_delete_ne by done).
Qed.

Lemma cleanup_available (r : registry) :
  cleanup r !! "update-available" = None.
Proof.
  unfold cleanup, updates_removeAllListeners, ipcRenderer_removeAllListeners.
  do 3 (rewrite lookup_delete_ne by done).
  apply lookup_delete_eq.
Qed.

Lemma remounts_checking n :
  default [] (remounts n ∅ !! "checking-for-update")
  = map (fun k => {| target := listener_of k on_checking;
                     once_only := false |})
        (seq 0 n).
Proof.
  induction n as [|n IH]; [done|].
  simpl remounts. rewrite cleanup_checking, mount_checking. simpl default.
  by rewrite IH, seq_S, map_app.
Qed.

Lemma remounts_not_available n :
  default [] (remounts n ∅ !! "update-not-available")
  = map (fun k => {| target := listener_of k on_not_available;
                     once_only := false |})
        (seq 0 n).
Proof.
  induction n as [|n IH]; [done|].
  simpl remounts. rewrite cleanup_not_available, mount_not_available.
  simpl default. by rewrite IH, seq_S, map_app.
Qed.

Lemma remounts_available n :
  default [] (remounts n ∅ !! "update-available") = [].
Proof.
  destruct n as [|n]; [done|].
  simpl remounts. by rewrite cleanup_available.
Qed.

Lemma deliver_one channel data (r : registry) :
  deliver [(channel, data)] r = (emit channel data r).1.
Proof. simpl. destruct (emit channel data r). simpl. apply app_nil_r. Qed.

(** X9: the cleanup of the component removes the listeners of four channels
    and leaves those of [checking-for-update] and [update-not-available]
    registered.  After [n] earlier mounts, each followed by its cleanup, a
    message on one of these two channels calls the listeners of all [n]
    unmounted instances besides the one of the mounted instance, while an
    [update-available] message calls the mounted instance's listener
    only. *)
Theorem remount_keeps_stale_listeners (n : nat) (data : value) :
  deliver [("checking-for-update", data)] (mount n (remounts n ∅))
  = map (fun k => (listener_of k on_checking, data)) (seq 0 (S n))
  /\ deliver [("update-not-available", data)] (mount n (remounts n ∅))
     = map (fun k => (listener_of k on_not_available, data)) (seq 0 (S n))
  /\ deliver [("update-available", data)] (mount n (remounts n ∅))
     = [(listener_of n on_available, data)].
Proof.
  rewrite !deliver_one. unfold emit.
  rewrite mount_checking, remounts_checking.
  rewrite mount_not_available, remounts_not_available.
  rewrite mount_available, remounts_available.
  cbn [fst].
  split; [|split; [|done]]; by rewrite seq_S, !map_app, map_map.
Qed.

(** *** What the listeners do to the cells *)

Lemma do_step_downloaded x s s' :
  do_step x s = Some s' -> downloaded s = true -> downloaded s' = true.
Proof.
  destruct x as [[] data| |[v|e]]; simpl; intros Hstep Hd;
    try (injection Hstep as <-; done).
  - destruct (string_cell _); simpl in Hstep; [|done].
    by injection Hstep as <-.
  - destruct (js_truthy _); [|by injection Hstep as <-].
    destruct (string_cell _); simpl in Hstep; [|done].
    by injection Hstep as <-.
Qed.

Lemma run_downloaded steps : forall s s',
  run steps s = Some s' -> downloaded s = true -> downloaded s' = true.
Proof.
  induction steps as [|x steps IH]; intros s s' Hrun Hd; simpl in Hrun.
  - by injection Hrun as <-.
  - destruct (do_step x s) as [s1|] eqn:Hstep; simpl in Hrun; [|done].
    eapply IH; [exact Hrun|]. by eapply do_step_downloaded.
Qed.

Lemma downloaded_view s :
  downloaded s = true ->
  (actions_for installAndRelaunch (Versions s)
   = [{| calls := installAndRelaunch; label := "Install and Relaunch";
         is_disabled := false |}]
   /\ actions_for startDownload (Versions s) = [])
  /\ (actions_for installAndRelaunch (Versions_debug s)
      = [{| calls := installAndRelaunch; label := "Install and Relaunch";
            is_disabled := false |}]
      /\ actions_for startDownload (Versions_debug s) = []).
Proof.
  destruct s as [vs av avail ua pr dl ck msg]. simpl. intros ->.
  destruct ua, ck, pr, msg as [[|? ?]|]; repeat split; reflexivity.
Qed.

(** X10: once an update has been downloaded the component never goes back:
    whatever messages arrive and whatever checks the user starts afterwards,
    [downloaded] stays true, the Install and Relaunch button stays rendered
    and the Download button is not rendered again (in both versions of the
    component). *)
Theorem downloaded_is_final (steps : list step) (s s' : state) :
  run steps s = Some s' ->
  downloaded s = true ->
  downloaded s' = true
  /\ (actions_for installAndRelaunch (Versions s')
      = [{| calls := installAndRelaunch; label := "Install and Relaunch";
            is_disabled := false |}]
      /\ actions_for startDownload (Versions s') = [])
  /\ (actions_for installAndRelaunch (Versions_debug s')
      = [{| calls := installAndRelaunch; label := "Install and Relaunch";
            is_disabled := false |}]
      /\ actions_for startDownload (Versions_debug s') = []).
Proof.
  intros Hrun Hd.
  assert (Hd' : downloaded s' = true) by (by eapply run_downloaded).
  split; [done|]. by apply downloaded_view.
Qed.

End Life.

(** ** From the simulation to the screen *)

Section EndToEnd.
Import Preload Renderer Component.

(** The messages of the simulated flow, as in the dev-mode theorem of the
    privileged side. *)
Lemma dev_flow_messages
    (st : Main.state) (w : Main.BrowserWindow)
    (lib1 lib2 : completion value) (n k : nat) :
  Main.isPackaged (Main.app st) = false ->
  Main.mainWindow st = Some w ->
  Main.timers st = [] ->
  1 <= n ->
  20 <= k ->
  exists samples : list Z,
    Main.sent
      (Main.run_timers k
         (Main.after (Main.Dev.update_download lib2)
            (Main.run_timers n
               (Main.after (Main.Dev.update_check lib1) st))))
    = Main.sent st
      ++ [ {| Main.channel := "checking-for-update"; Main.args := [] |};
           {| Main.channel := "update-available";
              Main.args :=
                [VObj [("version",
                        VStr (Main.getVersion (Main.app st) +:+ "-dev"));
                       ("releaseName",
                        VStr ("dev-simulated-"
                              +:+ Main.getVersion (Main.app st)))]] |} ]
      ++ map (fun pct => {| Main.channel := "download-progress";
                            Main.args := [VObj [("percent", VNum pct)]] |})
             samples
      ++ [ {| Main.channel := "update-downloaded";
              Main.args :=
                [VObj [("version",
                        VStr (Main.getVersion (Main.app st)
                              +:+ "-dev"))]] |} ].
Proof.
  intros Hdev Hwin Hidle Hn Hk.
  destruct st as [[pk v f] mw s c t ts d]. simpl in *. subst.
  destruct n as [|n]; [lia|].
  change (Main.run_timers (S n))
    with (fun x => Main.run_timers n (Main.fire_next x)).
  cbv beta.
  rewrite dev_check_state by done. rewrite app_nil_l.
  rewrite fire_next_announce, (run_timers_idle n) by done.
  rewrite dev_download_state by done. rewrite app_nil_l.
  match goal with
  | |- context [Main.run_timers k
                  {| Main.sent := ?s1; Main.now := ?t1;
                     Main.timers := [{| Main.due := ?d1 |}] |}] =>
      destruct (progress_runs_to_completion k
                  {| Main.isPackaged := false; Main.getVersion := v;
                     Main.entropy := f |}
                  w s1 c t1 d d1 0%Z)
        as (samples & Hsent & _); [lia|lia|]
  end.
  exists samples. simpl in *. rewrite Hsent. by rewrite <- !app_assoc.
Qed.

(** The registry of one mounted component hands every message of the four
    channels of the flow to the listener of its channel, and stays as it
    is. *)
Lemma emit_mounted_checking data :
  emit "checking-for-update" data (mount 0 ∅)
  = ([(listener_of 0 on_checking, data)], mount 0 ∅).
Proof. vm_compute. reflexivity. Qed.

Lemma emit_mounted_available data :
  emit "update-available" data (mount 0 ∅)
  = ([(listener_of 0 on_available, data)], mount 0 ∅).
Proof. vm_compute. reflexivity. Qed.

Lemma emit_mounted_progress data :
  emit "download-progress" data (mount 0 ∅)
  = ([(listener_of 0 on_progress, data)], mount 0 ∅).
Proof. vm_compute. reflexivity. Qed.

Lemma emit_mounted_downloaded data :
  emit "update-downloaded" data (mount 0 ∅)
  = ([(listener_of 0 on_downloaded, data)], mount 0 ∅).
Proof. vm_compute. reflexivity. Qed.

Lemma deliver_mounted_progress (samples : list Z) rest :
  deliver (map (fun pct => ("download-progress",
                            VObj [("percent", VNum pct)])) samples ++ rest)
          (mount 0 ∅)
  = map (fun pct => (listener_of 0 on_progress,
                     VObj [("percent", VNum pct)])) samples
    ++ deliver rest (mount 0 ∅).
Proof.
  induction samples as [|p samples IH]; [done|].
  cbn [map app deliver]. rewrite emit_mounted_progress.
  cbn [app]. by rewrite IH.
Qed.

Lemma steps_for_app instance (a b : list (listener * value)) :
  steps_for instance (a ++ b) = steps_for instance a ++ steps_for instance b.
Proof. unfold steps_for. by rewrite filter_app, map_app. Qed.

Lemma steps_for_progress (samples : list Z) :
  steps_for 0 (map (fun pct => (listener_of 0 on_progress,
                                VObj [("percent", VNum pct)])) samples)
  = map (fun pct => heard on_progress (VObj [("percent", VNum pct)])) samples.
Proof.
  induction samples as [|p samples IH]; [done|].
  rewrite !map_cons.
  change (?x :: ?l) with ([x] ++ l) at 1.
  rewrite steps_for_app, IH. done.
Qed.

(** The progress samples only write the [downloadProgress] cell. *)
Lemma run_progress (samples : list Z) rest : forall s,
  exists pr,
    run (map (fun pct => heard on_progress (VObj [("percent", VNum pct)]))
             samples ++ rest) s
    = run rest (set_downloadProgress pr s).
Proof.
  induction samples as [|p samples IH]; intros s.
  - exists (downloadProgress s). by destruct s.
  - cbn [map app run do_step call]. simpl.
    destruct (IH (set_downloadProgress (Some p) s)) as [pr Hpr].
    exists pr. by rewrite Hpr.
Qed.

(** X11: the simulated flow, followed through the bridge into a freshly
    mounted component.  The messages the main process sends for a check
    and a later download (dev mode, as in the flow of the privileged side),
    delivered by [ipcRenderer] to the listeners the component subscribed,
    leave the component showing the version with its ["-dev"] tag, progress
    100 and the Install and Relaunch button; the Download button is gone and
    the Check button is enabled. *)
Theorem simulated_update_reaches_install
    (st : Main.state) (w : Main.BrowserWindow)
    (lib1 lib2 : completion value) (n k : nat) (vs : process_versions) :
  Main.isPackaged (Main.app st) = false ->
  Main.mainWindow st = Some w ->
  Main.timers st = [] ->
  1 <= n ->
  20 <= k ->
  let final :=
    Main.run_timers k
      (Main.after (Main.Dev.update_download lib2)
         (Main.run_timers n (Main.after (Main.Dev.update_check lib1) st))) in
  let news := drop (length (Main.sent st)) (Main.sent final) in
  let shown :=
    {| versions := vs; appVersion := None;
       availableVersion := Some (Main.getVersion (Main.app st) +:+ "-dev");
       updateAvailable := true; downloadProgress := Some 100%Z;
       downloaded := true; checking := false;
       notAvailableMessage := None |} in
  run (steps_for 0 (deliver (traffic_of news) (mount 0 ∅))) (initial vs)
  = Some shown
  /\ actions_for installAndRelaunch (Versions shown)
     = [{| calls := installAndRelaunch; label := "Install and Relaunch";
           is_disabled := false |}]
  /\ actions_for startDownload (Versions shown) = []
  /\ actions_for startCheck (Versions shown)
     = [{| calls := startCheck; label := "Check for updates";
           is_disabled := false |}].
Proof.
  intros Hdev Hwin Hidle Hn Hk final news shown.
  split; [|by repeat split].
  destruct (dev_flow_messages st w lib1 lib2 n k) as [samples Hsent];
    try done.
  unfold news, final. rewrite Hsent, drop_app_length.
  unfold traffic_of. rewrite !map_app, map_map.
  cbn [map app hd Main.channel Main.args deliver].
  rewrite emit_mounted_checking, emit_mounted_available.
  rewrite deliver_mounted_progress.
  cbn [deliver]. rewrite emit_mounted_downloaded.
  cbn [app].
  change (?a :: ?b :: ?l) with ([a; b] ++ l).
  rewrite !steps_for_app, steps_for_progress.
  unfold steps_for at 1 2.
  rewrite !filter_cons_True, !filter_nil by done.
  cbn [map app fst snd listener_of index callback_of Nat.modulo].
  change (callback_of (listener_of 0 on_checking)) with on_checking.
  change (callback_of (listener_of 0 on_available)) with on_available.
  change (callback_of (listener_of 0 on_downloaded)) with on_downloaded.
  cbn [run do_step call]. simpl.
  match goal with
  | |- context [run (map _ samples ++ ?rest) ?s0] =>
      destruct (run_progress samples rest s0) as [pr ->]
  end.
  unfold shown. by destruct (Main.getVersion (Main.app st)).
Qed.

Lemma simulated_update_reaches_install_witness :
  let st := Samples.ready Samples.dev_env in
  let vs := {| electron := "30.0.0"; chrome := "124.0.0";
               nodejs := "20.11.1" |} in
  let final :=
    Main.run_timers 20
      (Main.after (Main.Dev.update_download (Normal VNull))
         (Main.run_timers 1
            (Main.after (Main.Dev.update_check (Normal VNull)) st))) in
  let news := drop (length (Main.sent st)) (Main.sent final) in
  let shown :=
    {| versions := vs; appVersion := None;
       availableVersion := Some (Main.getVersion (Main.app st) +:+ "-dev");
       updateAvailable := true; downloadProgress := Some 100%Z;
       downloaded := true; checking := false;
       notAvailableMessage := None |} in
  run (steps_for 0 (deliver (traffic_of news) (mount 0 ∅))) (initial vs)
  = Some shown
  /\ actions_for installAndRelaunch (Versions shown)
     = [{| calls := installAndRelaunch; label := "Install and Relaunch";
           is_disabled := false |}]
  /\ actions_for startDownload (Versions shown) = []
  /\ actions_for startCheck (Versions shown)
     = [{| calls := startCheck; label := "Check for updates";
           is_disabled := false |}].
Proof.
  intros st vs.
  apply (simulated_update_reaches_install st 1 (Normal VNull) (Normal VNull)
           1 20 vs).
  - reflexivity.
  - reflexivity.
  - reflexivity.
  - lia.
  - lia.
Defined.

End EndToEnd.

(** ** The component's own requests *)

Section Requests.
Import Preload Renderer Component.

Lemma downloaded_is_final_witness :
  let vs := {| electron := "30.0.0"; chrome := "124.0.0";
               nodejs := "20.11.1" |} in
  let s := set_downloaded true (initial vs) in
  let s' :=
    {| versions := vs; appVersion := None;
       availableVersion := Some "2.0.0"; updateAvailable := false;
       downloadProgress := Some 40%Z; downloaded := true;
       checking := false;
       notAvailableMessage := Some "No updates are available" |} in
  downloaded s' = true
  /\ (actions_for installAndRelaunch (Versions s')
      = [{| calls := installAndRelaunch; label := "Install and Relaunch";
            is_disabled := false |}]
      /\ actions_for startDownload (Versions s') = [])
  /\ (actions_for installAndRelaunch (Versions_debug s')
      = [{| calls := installAndRelaunch; label := "Install and Relaunch";
            is_disabled := false |}]
      /\ actions_for startDownload (Versions_debug s') = []).
Proof.
  intros vs s s'.
  apply (downloaded_is_final
           [ check_clicked;
             heard on_checking VUndefined;
             heard on_available (VObj [("version", VStr "2.0.0")]);
             heard on_progress (VNum 40);
             heard on_not_available VNull ] s s').
  - reflexivity.
  - reflexivity.
Defined.

Lemma run_app (xs ys : list step) : forall s,
  run (xs ++ ys) s = s' ← run xs s; run ys s'.
Proof.
  induction xs as [|x xs IH]; intros s; [done|].
  simpl. destruct (do_step x s) as [s1|]; simpl; [apply IH|done].
Qed.

(** X12: [startCheck] and the check handler together.  Unless the library
    fails with null or undefined, the handler resolves (with the library's
    result, an error object or [{ simulated: true }]), so the [catch] of
    [startCheck] is not entered: when the request settles, nothing changes
    in the component, whatever happened to it since the click.  The
    component after any steps followed by the settling is the component
    after those steps; a failed check does not by itself give the Check
    button back.  This holds for both versions of the handler. *)
Theorem check_request_settles_quietly
    (lib : completion value) (st : Main.state)
    (steps : list step) (s : state) :
  rejects_nullish lib = false ->
  run (steps ++ [check_settled
                   (Main.result (Main.Plain.update_check lib) st)]) s
  = run steps s
  /\ run (steps ++ [check_settled
                      (Main.result (Main.Dev.update_check lib) st)]) s
     = run steps s.
Proof.
  intros Hlib.
  assert (Hplain : exists v,
             Main.result (Main.Plain.update_check lib) st = Normal v).
  { destruct lib as [v|thrown]; [by exists v|]. simpl in Hlib.
    eexists. unfold Main.result, Main.Plain.update_check, Main.try_catch,
      Main.autoUpdater, Main.eval, mbind, Main.M_bind, read_message.
    simpl. by rewrite Hlib. }
  assert (Hdev : exists v,
             Main.result (Main.Dev.update_check lib) st = Normal v).
  { destruct (Main.isPackaged (Main.app st)) eqn:Hpk.
    - destruct Hplain as [v Hv]. exists v. rewrite <- Hv.
      unfold Main.result, Main.Dev.update_check, Main.Plain.update_check,
        Main.try_catch, Main.app_isPackaged, mbind, Main.M_bind.
      simpl. by rewrite Hpk.
    - exists simulated_object.
      unfold Main.result, Main.Dev.update_check, Main.try_catch,
        Main.app_isPackaged, mbind, Main.M_bind.
      simpl. by rewrite Hpk. }
  destruct Hplain as [v1 ->], Hdev as [v2 ->].
  rewrite !run_app. simpl. by destruct (run steps s).
Qed.

Lemma check_request_settles_quietly_witness :
  let st := Samples.ready Samples.packaged_env in
  let lib : completion value := Throw (new_Error "offline") in
  let s := initial {| electron := "30.0.0"; chrome := "124.0.0";
                      nodejs := "20.11.1" |} in
  let steps := [check_clicked; heard on_checking VUndefined;
                heard on_error (VStr "offline")] in
  run (steps ++ [check_settled
                   (Main.result (Main.Plain.update_check lib) st)]) s
  = run steps s
  /\ run (steps ++ [check_settled
                      (Main.result (Main.Dev.update_check lib) st)]) s
     = run steps s.
Proof.
  intros st lib s steps.
  apply (check_request_settles_quietly lib st steps s).
  reflexivity.
Defined.

(** *** [fetchVersion] *)

Lemma try_path_spec present answers calls :
  match try_path present answers calls with
  | (Normal (Some v), c) =>
      present = true /\ c = S calls /\ answers calls = Normal v
      /\ nonempty v = true
  | (Normal None, c) =>
      (present = false /\ c = calls)
      \/ (present = true /\ c = S calls /\ useless (answers calls))
  | (Throw _, c) =>
      present = true /\ c = S calls /\ useless (answers calls)
  end.
Proof.
  unfold try_path, useless. destruct present; [|by left].
  destruct (answers calls) as [v|e]; [|done].
  destruct (nonempty v) eqn:Hv; [done|]. by right.
Qed.

Lemma Forall_seq_extend (P : nat -> Prop) a n :
  Forall P (seq a n) -> P (a + n) -> Forall P (seq a (S n)).
Proof.
  intros Hall Hlast. rewrite seq_S. apply Forall_app. split; [done|].
  by constructor.
Qed.

(** One attempt makes at most two requests; when it finds a version, that
    version is the non-empty answer to its last request, and every request
    before it was useless. *)
Lemma attempt_spec api fallback answers calls :
  match attempt api fallback answers calls with
  | (Some v, c) =>
      calls < c <= calls + 2 /\ nonempty v = true
      /\ answers (c - 1) = Normal v
      /\ Forall (fun i => useless (answers i)) (seq calls (c - 1 - calls))
  | (None, c) =>
      calls <= c <= calls + 2
      /\ Forall (fun i => useless (answers i)) (seq calls (c - calls))
  end.
Proof.
  unfold attempt.
  pose proof (try_path_spec api answers calls) as H1.
  destruct (try_path api answers calls) as [[[v|]|e] c].
  - destruct H1 as (_ & -> & Hans & Hv).
    replace (S calls - 1) with calls by lia.
    replace (calls - calls) with 0 by lia.
    repeat split; try done; try lia.
  - pose proof (try_path_spec fallback answers c) as H2.
    assert (Hfirst : calls <= c <= calls + 1
                     /\ Forall (fun i => useless (answers i))
                          (seq calls (c - calls))).
    { destruct H1 as [[_ ->]|(_ & -> & Hu)].
      - replace (calls - calls) with 0 by lia. split; [lia|constructor].
      - replace (S calls - calls) with 1 by lia.
        split; [lia|]. by repeat constructor. }
    destruct Hfirst as [Hc Hall].
    destruct (try_path fallback answers c) as [[[v|]|e] c'].
    + destruct H2 as (_ & -> & Hans & Hv).
      replace (S c - 1) with c by lia.
      repeat split; try done; lia.
    + destruct H2 as [[_ ->]|(_ & -> & Hu)].
      * split; [lia|done].
      * split; [lia|].
        replace (S c - calls) with (S (c - calls)) by lia.
        apply Forall_seq_extend; [done|].
        by replace (calls + (c - calls)) with c by lia.
    + destruct H2 as (_ & -> & Hu).
      split; [lia|].
      replace (S c - calls) with (S (c - calls)) by lia.
      apply Forall_seq_extend; [done|].
      by replace (calls + (c - calls)) with c by lia.
  - destruct H1 as (_ & -> & Hu).
    replace (S calls - calls) with 1 by lia.
    split; [lia|]. by repeat constructor.
Qed.

Lemma Forall_seq_join (P : nat -> Prop) a b c :
  a <= b <= c ->
  Forall P (seq a (b - a)) -> Forall P (seq b (c - b)) ->
  Forall P (seq a (c - a)).
Proof.
  intros Hle Hab Hbc.
  replace (c - a) with ((b - a) + (c - b)) by lia.
  rewrite seq_app. apply Forall_app. split; [done|].
  by replace (a + (b - a)) with b by lia.
Qed.

Lemma fetch_attempts_spec n : forall api fallback answers calls waits,
  match fetch_attempts n api fallback answers calls waits with
  | (Some v, c, w) =>
      calls < c <= calls + 2 * n /\ waits <= w < waits + n
      /\ nonempty v = true /\ answers (c - 1) = Normal v
      /\ Forall (fun i => useless (answers i)) (seq calls (c - 1 - calls))
  | (None, c, w) =>
      calls <= c <= calls + 2 * n /\ w = waits + n
      /\ Forall (fun i => useless (answers i)) (seq calls (c - calls))
  end.
Proof.
  induction n as [|n IH]; intros api fallback answers calls waits; simpl.
  - replace (calls - calls) with 0 by lia.
    repeat split; try lia. constructor.
  - pose proof (attempt_spec api fallback answers calls) as Ha.
    destruct (attempt api fallback answers calls) as [[v|] c1].
    + destruct Ha as (Hc & Hv & Hans & Hall). repeat split; try done; lia.
    + destruct Ha as (Hc & Hall).
      pose proof (IH api fallback answers c1 (S waits)) as Hrest.
      destruct (fetch_attempts n api fallback answers c1 (S waits))
        as [[[v|] c] w].
      * destruct Hrest as (Hc' & Hw & Hv & Hans & Hall').
        repeat split; try done; try lia.
        apply (Forall_seq_join _ calls c1 (c - 1)); [lia|done|done].
      * destruct Hrest as (Hc' & Hw & Hall').
        repeat split; try lia.
        by apply (Forall_seq_join _ calls c1 c); [lia| |].
Qed.

(** X13: [fetchVersion] is a bounded retry.  It makes at most six requests
    for the app version and waits at most three times 200 ms.  When it sets
    a version, that version is non-empty and is the answer to the last
    request it made, all earlier requests having been rejected or answered
    with an empty string, and it waited at most twice; when it gives up, it
    has waited exactly three times, every request it made was rejected or
    answered with an empty string, and the version stays null. *)
Theorem fetchVersion_outcome
    (api fallback : bool) (answers : nat -> completion string) :
  match fetchVersion api fallback answers with
  | (Some v, c, w) =>
      nonempty v = true /\ 1 <= c <= 6 /\ w <= 2
      /\ answers (c - 1) = Normal v
      /\ Forall (fun i => useless (answers i)) (seq 0 (c - 1))
  | (None, c, w) =>
      c <= 6 /\ w = 3
      /\ Forall (fun i => useless (answers i)) (seq 0 c)
  end.
Proof.
  unfold fetchVersion.
  pose proof (fetch_attempts_spec 3 api fallback answers 0 0) as H.
  destruct (fetch_attempts 3 api fallback answers 0 0) as [[[v|] c] w].
  - destruct H as (Hc & Hw & Hv & Hans & Hall).
    replace (c - 1 - 0) with (c - 1) in Hall by lia.
    repeat split; try done; lia.
  - destruct H as (Hc & Hw & Hall).
    replace (c - 0) with c in Hall by lia.
    repeat split; try done; lia.
Qed.

(** X14: a rejection on the exposed API ends the attempt: the [catch]
    encloses both paths.  So when the API is there and every request is
    rejected, the fallback is never tried, whether it exists or not: three
    requests, three waits, no version. *)
Theorem fetchVersion_rejected_api_skips_fallback
    (fallback : bool) (answers : nat -> completion string) :
  (forall i, exists e, answers i = Throw e) ->
  fetchVersion true fallback answers = (None, 3, 3).
Proof.
  intros Hall.
  destruct (Hall 0) as [e0 H0], (Hall 1) as [e1 H1], (Hall 2) as [e2 H2].
  unfold fetchVersion, fetch_attempts, attempt, try_path.
  by rewrite H0, H1, H2.
Qed.

Lemma fetchVersion_rejected_api_skips_fallback_witness :
  fetchVersion true true (fun _ => Throw (new_Error "no handler"))
  = (None, 3, 3).
Proof.
  apply (fetchVersion_rejected_api_skips_fallback true
           (fun _ => Throw (new_Error "no handler"))).
  intros i. by eexists.
Defined.

End Requests.

(** ** From the library to the screen *)

Section Reports.
Import Preload Renderer Component.

(** X15: what ends the "Checking..." state.  While [checking] is true, the
    only things that set it back are the messages [update-available],
    [update-not-available] and [update-error] and a rejected check request;
    progress samples, [update-downloaded], another [checking-for-update],
    a click on Check and a check request that resolves (also with an error
    object) leave it true. *)
Theorem checking_ends_only_on (x : step) (s s' : state) :
  do_step x s = Some s' ->
  checking s = true ->
  checking s'
  = match x with
    | heard on_available _ | heard on_not_available _ | heard on_error _
    | check_settled (Throw _) => false
    | _ => true
    end.
Proof.
  destruct x as [[] data| |[v|e]]; simpl; intros Hstep Hck;
    try (by injection Hstep as <-).
  - destruct (string_cell _); simpl in Hstep; [|done].
    by injection Hstep as <-.
  - destruct (js_truthy _); [|by injection Hstep as <-].
    destruct (string_cell _); simpl in Hstep; [|done].
    by injection Hstep as <-.
Qed.

Lemma checking_ends_only_on_witness :
  let vs := {| electron := "30.0.0"; chrome := "124.0.0";
               nodejs := "20.11.1" |} in
  checking (initial vs) = false.
Proof.
  intros vs.
  apply (checking_ends_only_on (heard on_error (VStr "offline"))
           (startCheck_begin (initial vs)) (initial vs)).
  - reflexivity.
  - reflexivity.
Defined.

(** X16: an update reported by the library, followed to the screen.  With
    the window open, the events [checking-for-update] and
    [update-available] of the updater, forwarded by the main process and
    delivered to a freshly mounted component, leave it showing the version
    of the report and the Download button, with the Check button enabled
    again (the report carrying a string as its version). *)
Theorem reported_update_shows_download
    (st : Main.state) (w : Main.BrowserWindow) (info : value)
    (ver : string) (vs : process_versions) :
  Main.mainWindow st = Some w ->
  optional_prop "version" info = VStr ver ->
  let after_events :=
    Main.plain_run [ Main.emitted Main.checking_for_update;
                     Main.emitted (Main.update_available info) ] st in
  let news := drop (length (Main.sent st)) (Main.sent after_events) in
  let shown :=
    {| versions := vs; appVersion := None; availableVersion := Some ver;
       updateAvailable := true; downloadProgress := None;
       downloaded := false; checking := false;
       notAvailableMessage := None |} in
  run (steps_for 0 (deliver (traffic_of news) (mount 0 ∅))) (initial vs)
  = Some shown
  /\ actions_for startDownload (Versions shown)
     = [{| calls := startDownload; label := "Download";
           is_disabled := false |}]
  /\ actions_for installAndRelaunch (Versions shown) = []
  /\ actions_for startCheck (Versions shown)
     = [{| calls := startCheck; label := "Check for updates";
           is_disabled := false |}].
Proof.
  intros Hwin Hver after_events news shown.
  split; [|by destruct ver].
  unfold news, after_events.
  destruct st as [e mw s c t ts d]. simpl in Hwin. subst mw.
  change (Main.sent (Main.plain_run _ _))
    with ((s ++ [{| Main.channel := "checking-for-update";
                    Main.args := [] |}])
          ++ [{| Main.channel := "update-available";
                 Main.args := [info] |}]).
  rewrite <- app_assoc. simpl Main.sent. rewrite drop_app_length.
  unfold traffic_of. cbn [map app hd Main.channel Main.args deliver].
  rewrite emit_mounted_checking, emit_mounted_available.
  unfold steps_for. cbn [app].
  rewrite !filter_cons_True, filter_nil by done.
  cbn [map fst snd].
  change (callback_of (listener_of 0 on_checking)) with on_checking.
  change (callback_of (listener_of 0 on_available)) with on_available.
  cbn [run do_step call]. simpl. by rewrite Hver.
Qed.

Lemma reported_update_shows_download_witness :
  let st := Samples.ready Samples.packaged_env in
  let info := VObj [("version", VStr "2.0.0"); ("files", VNull)] in
  let vs := {| electron := "30.0.0"; chrome := "124.0.0";
               nodejs := "20.11.1" |} in
  let after_events :=
    Main.plain_run [ Main.emitted Main.checking_for_update;
                     Main.emitted (Main.update_available info) ] st in
  let news := drop (length (Main.sent st)) (Main.sent after_events) in
  let shown :=
    {| versions := vs; appVersion := None; availableVersion := Some "2.0.0";
       updateAvailable := true; downloadProgress := None;
       downloaded := false; checking := false;
       notAvailableMessage := None |} in
  run (steps_for 0 (deliver (traffic_of news) (mount 0 ∅))) (initial vs)
  = Some shown
  /\ actions_for startDownload (Versions shown)
     = [{| calls := startDownload; label := "Download";
           is_disabled := false |}]
  /\ actions_for installAndRelaunch (Versions shown) = []
  /\ actions_for startCheck (Versions shown)
     = [{| calls := startCheck; label := "Check for updates";
           is_disabled := false |}].
Proof.
  intros st info vs.
  apply (reported_update_shows_download st 1 info "2.0.0" vs).
  - reflexivity.
  - reflexivity.
Defined.

End Reports.
